(** * freecal: the interval algebra behind the free-slot report

    A shallow embedding of the interval code of [main.go]
    ([overlaps], [mergeIntervals], [eventsToIntervals], [findFreeSlots])
    together with the small part of Go's [time], [sort], [strings] and
    [fmt] packages these functions call, followed by the properties the
    specification states about them. *)

From Stdlib Require Import ZArith List Bool Lia String Ascii DecimalString.
From Stdlib Require Import Permutation Sorted.
Import ListNotations.
Open Scope Z_scope.

(** ** The [time] package, as far as the program uses it *)

Module time.

(** A [time.Time] is an instant.  It is counted in nanoseconds from Go's
    zero [Time] (January 1, year 1, 00:00 UTC), so that the zero value
    [time.Time{}] is [0].  Every [Time] the program builds carries the
    same [*time.Location] (the [-tz] flag), which is passed explicitly
    to the two methods that read the wall clock. *)
Definition Time : Type := Z.

Definition zero : Time := 0.

(** [t.After(u)] and [t.Before(u)] compare instants, strictly. *)
Definition After (t u : Time) : bool := u <? t.
Definition Before (t u : Time) : bool := t <? u.

(** A [time.Duration] is an [int64] count of nanoseconds. *)
Definition Duration : Type := Z.

Definition Nanosecond : Duration := 1.
Definition Second : Duration := 1000000000 * Nanosecond.
Definition Minute : Duration := 60 * Second.
Definition Hour : Duration := 60 * Minute.

Definition minDuration : Duration := - 2 ^ 63.
Definition maxDuration : Duration := 2 ^ 63 - 1.

Definition is_Duration (d : Z) : Prop := minDuration <= d <= maxDuration.

(** [t.Sub(u)]: the difference [t - u], saturated at the least and the
    greatest [Duration] when it does not fit. *)
Definition Sub (t u : Time) : Duration :=
  let d := t - u in
  if d <? minDuration then minDuration
  else if maxDuration <? d then maxDuration
  else d.

(** A location with a fixed offset, in seconds east of UTC. *)
Definition Location : Type := Z.

Definition secondsPerMinute : Z := 60.
Definition secondsPerHour : Z := 60 * secondsPerMinute.
Definition secondsPerDay : Z := 24 * secondsPerHour.

(** Seconds of local wall-clock time elapsed since the zero [Time]. *)
Definition abs (loc : Location) (t : Time) : Z := t / Second + loc.

(** [t.Hour()] and [t.Minute()]. *)
Definition HourOf (loc : Location) (t : Time) : Z :=
  (abs loc t mod secondsPerDay) / secondsPerHour.
Definition MinuteOf (loc : Location) (t : Time) : Z :=
  (abs loc t mod secondsPerHour) / secondsPerMinute.

(** [time.Date(y, m, d, hour, min, 0, 0, loc)], with the calendar date
    given as the number [day] of whole days since the zero [Time]. *)
Definition Date (day hour min : Z) (loc : Location) : Time :=
  (day * secondsPerDay + hour * secondsPerHour + min * secondsPerMinute - loc)
  * Second.

(** The number of the local calendar day an instant falls on. *)
Definition dayOf (loc : Location) (t : Time) : Z := abs loc t / secondsPerDay.

(** A [time.Weekday] is an [int], [Sunday] being 0. *)
Definition Weekday : Type := Z.

Definition Sunday : Weekday := 0.
Definition Monday : Weekday := 1.
Definition Tuesday : Weekday := 2.
Definition Wednesday : Weekday := 3.
Definition Thursday : Weekday := 4.
Definition Friday : Weekday := 5.
Definition Saturday : Weekday := 6.

Definition secondsPerWeek : Z := 7 * secondsPerDay.

(** [t.Weekday()]; the zero [Time] falls on a Monday. *)
Definition WeekdayOf (loc : Location) (t : Time) : Weekday :=
  ((abs loc t + Monday * secondsPerDay) mod secondsPerWeek) / secondsPerDay.

(** [t.AddDate(0, 0, days)] in a location with a fixed offset: the same
    wall clock, [days] calendar days later.  For a location whose offset
    changes see [zone] and [AddDate1] below. *)
Definition AddDays (t : Time) (days : Z) : Time := t + days * 24 * Hour.

(** The value an [int64] holds after an arithmetic result [z]. *)
Definition wrapInt64 (z : Z) : Z := (z + 2 ^ 63) mod 2 ^ 64 - 2 ^ 63.

End time.

(** ** [strings.EqualFold] *)

Module strings.

(** Lower-casing of one byte, for the letters [A]..[Z]. *)
Definition lowerByte (c : ascii) : ascii :=
  let n := nat_of_ascii c in
  if (Nat.leb 65 n && Nat.leb n 90)%bool then ascii_of_nat (n + 32) else c.

(** [EqualFold s t]: equality under simple case folding, byte by byte
    as in the library's loop for ASCII.  The two constants the program
    compares with are ASCII.  Bytes outside ASCII are compared as they
    are: the two runes outside ASCII that the library folds onto an
    ASCII letter (U+017F onto s, U+212A onto k) are left out. *)
Fixpoint EqualFold (s t : string) : bool :=
  match s, t with
  | EmptyString, EmptyString => true
  | String a s', String b t' =>
      if Ascii.eqb (lowerByte a) (lowerByte b) then EqualFold s' t' else false
  | _, _ => false
  end.

(** [strings.Join(elems, sep)] *)
Fixpoint Join (elems : list string) (sep : string) : string :=
  match elems with
  | [] => EmptyString
  | [x] => x
  | x :: rest => (x ++ sep ++ Join rest sep)%string
  end.

End strings.

(** ** [fmt.Sprintf] with the verb [%02d] *)

Module fmt.

Definition decimal (n : Z) : string :=
  NilZero.string_of_uint (N.to_uint (Z.to_N n)).

(** Pads with zeros on the left up to [width] bytes. *)
Fixpoint zeroPad (fuel : nat) (width : nat) (s : string) : string :=
  match fuel with
  | O => s
  | S fuel' =>
      if Nat.ltb (String.length s) width
      then zeroPad fuel' width (String "0" s)
      else s
  end.

(** [%02d]: width two, zero padded; a sign counts for the width. *)
Definition pad02d (n : Z) : string :=
  if n <? 0
  then String "-" (zeroPad 1 1 (decimal (- n)))
  else zeroPad 2 2 (decimal n).

End fmt.

(** ** [sort.Slice] *)

Module sort.

Section Slice.
Context {A : Type} (less : A -> A -> bool).

(** The inner loop of Go's insertion sort: the new element moves to
    the left while it is [less] than its left neighbour.  The sorted
    prefix is held in reverse, its last element first. *)
Fixpoint sinkLeft (x : A) (revPrefix : list A) : list A :=
  match revPrefix with
  | [] => [x]
  | y :: r => if less x y then y :: sinkLeft x r else x :: y :: r
  end.

(** [sort.Slice(data, less)].  The library sorts slices of up to
    twelve elements by insertion and longer ones by pattern-defeating
    quicksort, and promises no stability; the model is the insertion
    sort at every length.  What the proofs below use of it is stated
    in [Slice_perm], [Slice_sorted] and [Slice_of_sorted]; on
    well-formed intervals the order of ties has no effect on
    [mergeIntervals] ([mergeIntervals_any_sort]). *)
Definition Slice (data : list A) : list A :=
  rev (fold_left (fun acc x => sinkLeft x acc) data []).
End Slice.

End sort.

(** ** Package [main] *)

Import time.

Record interval : Type := mkInterval { start : Time; end_ : Time }.

(** The zero value [interval{}]. *)
Definition interval_zero : interval := {| start := zero; end_ := zero |}.

Definition overlaps (a b : interval) : interval * bool :=
  let s := start a in
  let s := if After (start b) s then start b else s in
  let e := end_ a in
  let e := if Before (end_ b) e then end_ b else e in
  if After e s then ({| start := s; end_ := e |}, true)
  else (interval_zero, false).

(** The [less] function handed to [sort.Slice]. *)
Definition lessStart (x y : interval) : bool := Before (start x) (start y).

(** One turn of the loop of [mergeIntervals].  The slice [out] is never
    empty; it is held as its elements before the last one and the last
    one, which the loop updates through the pointer [last]. *)
Definition mergeStep (out : list interval * interval) (cur : interval)
  : list interval * interval :=
  let (init, last) := out in
  if After (start cur) (end_ last) then (init ++ [last], cur)
  else if After (end_ cur) (end_ last)
       then (init, {| start := start last; end_ := end_ cur |})
       else (init, last).

(** [mergeIntervals].  A nil slice and an empty one are both [[]].  The
    sort works in place, on the slice of the caller; the result is a
    slice of its own.  [sort.Slice] keeps the length ([Slice_nil]), so
    [in[0]] is there once the first test has passed. *)
Definition mergeIntervals (inp : list interval) : list interval :=
  match inp with
  | [] => []
  | _ :: _ =>
      match sort.Slice lessStart inp with
      | [] => []
      | first :: rest =>
          let (init, last) := fold_left mergeStep rest ([], first) in
          init ++ [last]
      end
  end.

(** *** Calendar events *)

Module calendar.

(** The fields of [calendar.EventDateTime] and [calendar.Event] that
    the program reads.  A nil pointer is [None]. *)
Record EventDateTime : Type :=
  mkEventDateTime { Date : string; DateTime : string }.

Record Event : Type :=
  mkEvent {
    Status : string;
    Transparency : string;
    Start : option EventDateTime;
    End_ : option EventDateTime
  }.

(** The fields of [calendar.Events], one page of the answer to
    [Events.List], that the program reads. *)
Record Events : Type :=
  mkEvents { Items : list Event; NextPageToken : string }.

End calendar.

Definition nonEmpty (s : string) : bool :=
  match s with EmptyString => false | String _ _ => true end.

Section Events.

(** [time.Parse(time.RFC3339, s)] and
    [time.ParseInLocation("2006-01-02", s, loc)]; [None] is an error. *)
Variable parseRFC3339 : string -> option Time.
Variable parseDay : string -> Location -> option Time.

Definition parseEventTime (e : calendar.Event) (loc : Location)
  : Time * Time * bool :=
  match calendar.Start e, calendar.End_ e with
  | Some st, Some en =>
      if nonEmpty (calendar.DateTime st) && nonEmpty (calendar.DateTime en)
      then
        (* timed event; [ss.In(loc)] is the same instant *)
        match parseRFC3339 (calendar.DateTime st),
              parseRFC3339 (calendar.DateTime en) with
        | Some ss, Some ee => (ss, ee, true)
        | _, _ => (zero, zero, false)
        end
      else if nonEmpty (calendar.Date st) && nonEmpty (calendar.Date en)
      then
        (* all-day event: local midnight of the two dates *)
        match parseDay (calendar.Date st) loc,
              parseDay (calendar.Date en) loc with
        | Some ds, Some de =>
            (time.Date (dayOf loc ds) 0 0 loc,
             time.Date (dayOf loc de) 0 0 loc, true)
        | _, _ => (zero, zero, false)
        end
      else (zero, zero, false)
  | _, _ => (zero, zero, false)
  end.

(** One turn of the loop of [eventsToIntervals]. *)
Definition eventStep (loc : Location) (busyAll : list interval)
                     (e : calendar.Event) : list interval :=
  if strings.EqualFold (calendar.Status e) "canceled" then busyAll
  else if strings.EqualFold (calendar.Transparency e) "transparent"
  then busyAll
  else
    match parseEventTime e loc with
    | (s, en, ok) =>
        if negb ok then busyAll
        else if negb (After en s) then busyAll
        else busyAll ++ [{| start := s; end_ := en |}]
    end.

Definition eventsToIntervals (events : list calendar.Event) (loc : Location)
  : list interval :=
  fold_left (eventStep loc) events [].

End Events.

(** *** Free slots of one day *)

(** The first loop of [findFreeSlots]: the busy intervals cut down to
    the day window. *)
Definition clipStep (dayWin : interval) (busy : list interval) (ev : interval)
  : list interval :=
  let (inter, ok) := overlaps ev dayWin in
  if ok then busy ++ [inter] else busy.

Definition busyOfDay (dayStart dayEnd : Time) (busyAll : list interval)
  : list interval :=
  let dayWin := {| start := dayStart; end_ := dayEnd |} in
  mergeIntervals (fold_left (clipStep dayWin) busyAll []).

(** The second loop: the sweep with the cursor. *)
Definition sweepStep (st : list interval * Time) (b : interval)
  : list interval * Time :=
  let (free, cursor) := st in
  let free :=
    if After (start b) cursor
    then free ++ [{| start := cursor; end_ := start b |}]
    else free in
  let cursor := if After (end_ b) cursor then end_ b else cursor in
  (free, cursor).

(** The slice [free] when the sweep is over. *)
Definition freeOfDay (dayStart dayEnd : Time) (busyAll : list interval)
  : list interval :=
  let busy := busyOfDay dayStart dayEnd busyAll in
  let (free, cursor) := fold_left sweepStep busy ([], dayStart) in
  if Before cursor dayEnd
  then free ++ [{| start := cursor; end_ := dayEnd |}]
  else free.

(** [fmt.Sprintf("%02d:%02d~%02d:%02d", ...)] *)
Definition formatSlot (loc : Location) (f : interval) : string :=
  (fmt.pad02d (HourOf loc (start f)) ++ ":" ++
   fmt.pad02d (MinuteOf loc (start f)) ++ "~" ++
   fmt.pad02d (HourOf loc (end_ f)) ++ ":" ++
   fmt.pad02d (MinuteOf loc (end_ f)))%string.

(** The filter of the third loop. *)
Definition longEnough (minDur : Duration) (f : interval) : bool :=
  minDur <=? Sub (end_ f) (start f).

Definition filterStep (loc : Location) (minDur : Duration)
                      (out : list string) (f : interval) : list string :=
  if longEnough minDur f then out ++ [formatSlot loc f] else out.

(** [findFreeSlots]; [loc] is the location of [dayStart], [dayEnd] and
    of the busy intervals. *)
Definition findFreeSlots (loc : Location) (dayStart dayEnd : Time)
                         (busyAll : list interval) (minDur : Duration)
  : list string :=
  fold_left (filterStep loc minDur) (freeOfDay dayStart dayEnd busyAll) [].

(** ** Vocabulary of the specification *)

(** An interval is well formed when it ends strictly after it starts. *)
Definition wellFormed (x : interval) : Prop := start x < end_ x.

(** [x] lies inside the window from [lo] to [hi]. *)
Definition within (lo hi : Time) (x : interval) : Prop :=
  lo <= start x /\ end_ x <= hi.

(** The instant [t] lies in the half-open range of [x]. *)
Definition contains (x : interval) (t : Time) : Prop :=
  start x <= t < end_ x.

(** [o] covers [x]. *)
Definition covers (o x : interval) : Prop :=
  start o <= start x /\ end_ x <= end_ o.

(** The half-open ranges of [x] and [y] have no instant in common. *)
Definition disjoint (x y : interval) : Prop :=
  end_ x <= start y \/ end_ y <= start x.

Definition leStart (x y : interval) : Prop := start x <= start y.
Definition ltStart (x y : interval) : Prop := start x < start y.

(** The order of the prefix the insertion sort has built, read from its
    last element back to its first. *)
Definition geStart (x y : interval) : Prop := start y <= start x.

(** [x] ends strictly before [y] starts: neither overlapping nor
    touching. *)
Definition apart (x y : interval) : Prop := end_ x < start y.

(** Each interval of the list stands in relation [R] to every later one. *)
Definition pairwise (R : interval -> interval -> Prop) (l : list interval)
  : Prop := StronglySorted R l.

(** The two decimal digits of a number below one hundred. *)
Definition twoDigits (n : Z) : string :=
  String (ascii_of_nat (48 + Z.to_nat (n / 10)))
    (String (ascii_of_nat (48 + Z.to_nat (n mod 10))) EmptyString).

(** The lengths of the intervals of a list, added up. *)
Fixpoint totalLength (l : list interval) : Z :=
  match l with
  | [] => 0
  | x :: l' => (end_ x - start x) + totalLength l'
  end.

(** A page of events that announces a next page. *)
Definition hasNext (resp : calendar.Events) : Prop :=
  nonEmpty (calendar.NextPageToken resp) = true.

(** [first] and the days that follow it, [n] in all, each being [next]
    of the one before. *)
Fixpoint daysFrom (next : Time -> Time) (first : Time) (n : nat)
  : list Time :=
  match n with
  | O => []
  | S n' => first :: daysFrom next (next first) n'
  end.

(** ** The two loops, by recursion on the slice they range over *)

(** [mergeFrom last rest]: the slice [out], from its last element on,
    after the loop of [mergeIntervals] has gone through [rest]. *)
Fixpoint mergeFrom (last : interval) (rest : list interval) : list interval :=
  match rest with
  | [] => [last]
  | cur :: rest' =>
      if After (start cur) (end_ last) then last :: mergeFrom cur rest'
      else if After (end_ cur) (end_ last)
           then mergeFrom {| start := start last; end_ := end_ cur |} rest'
           else mergeFrom last rest'
  end.

(** The loop of [mergeIntervals] on a slice that is sorted already. *)
Definition mergeSorted (sorted : list interval) : list interval :=
  match sorted with
  | [] => []
  | first :: rest => mergeFrom first rest
  end.

(** [sweepFrom cursor busy dayEnd]: what the sweep of [findFreeSlots]
    still appends to [free] with [busy] left to visit. *)
Fixpoint sweepFrom (cursor : Time) (busy : list interval) (dayEnd : Time)
  : list interval :=
  match busy with
  | [] =>
      if Before cursor dayEnd
      then [{| start := cursor; end_ := dayEnd |}]
      else []
  | b :: busy' =>
      let cursor' := if After (end_ b) cursor then end_ b else cursor in
      if After (start b) cursor
      then {| start := cursor; end_ := start b |} :: sweepFrom cursor' busy' dayEnd
      else sweepFrom cursor' busy' dayEnd
  end.

(** The busy intervals that reach into the day window, cut down to it. *)
Fixpoint clip (dayWin : interval) (busyAll : list interval) : list interval :=
  match busyAll with
  | [] => []
  | ev :: rest =>
      let (inter, ok) := overlaps ev dayWin in
      if ok then inter :: clip dayWin rest else clip dayWin rest
  end.

(** ** The rest of package [main] *)

(** *** [formatJpWeekday] *)

Definition sundayJP : string := "日".

(** [formatJpWeekday]'s switch over the weekday. *)
Definition jpWeekday (w : Weekday) : string :=
  if w =? Monday then "月"
  else if w =? Tuesday then "火"
  else if w =? Wednesday then "水"
  else if w =? Thursday then "木"
  else if w =? Friday then "金"
  else if w =? Saturday then "土"
  else if w =? Sunday then sundayJP
  else sundayJP.

Definition formatJpWeekday (loc : Location) (t : Time) : string :=
  jpWeekday (WeekdayOf loc t).

(** *** [fetchCalendarEvents] *)

(** What a call of [fetchCalendarEvents] comes to.  The calendar service
    is the list of its answers to the successive calls of
    [eventsCall.Do()], [None] being an error; [Waiting] is the loop
    still waiting for an answer when the list is used up. *)
Inductive fetched : Type :=
| Fetched (events : list calendar.Event)
| FetchError
| Waiting.

(** The loop of [fetchCalendarEvents], entered with the page token and
    the events gathered so far.  Beside the outcome it gives the page
    tokens the calls were made with, in order: [None] for a call with no
    page token set. *)
Fixpoint fetchLoop (answers : list (option calendar.Events))
                   (pageToken : string) (events : list calendar.Event)
  : fetched * list (option string) :=
  let sent := if nonEmpty pageToken then Some pageToken else None in
  match answers with
  | [] => (Waiting, [sent])
  | None :: _ => (FetchError, [sent])
  | Some resp :: answers' =>
      let events := events ++ calendar.Items resp in
      if nonEmpty (calendar.NextPageToken resp)
      then
        let (res, tokens) :=
          fetchLoop answers' (calendar.NextPageToken resp) events in
        (res, sent :: tokens)
      else (Fetched events, [sent])
  end.

Definition fetchCalendarEvents (answers : list (option calendar.Events))
  : fetched * list (option string) :=
  fetchLoop answers "" [].

(** *** The loop of [main] over the days *)

(** [time.Duration(cfg.minMinutes) * time.Minute], an [int64] product. *)
Definition minDurOf (minMinutes : Z) : Duration :=
  wrapInt64 (minMinutes * Minute).

(** The working hours, as [mustParseClock] returned them. *)
Record hours : Type :=
  mkHours { wsH : Z; wsM : Z; weH : Z; weM : Z }.

(** The location [main] loads for the [-tz] flag.  Its offset may change
    in the course of the year: [offsetAt] is the offset in effect at an
    instant, and [zoneDate day clock] is
    [time.Date(y, m, d, hour, min, sec, nsec, loc)] for the calendar
    date that is day number [day] and the wall clock that is [clock]
    nanoseconds after midnight. *)
Record zone : Type :=
  mkZone { offsetAt : Time -> Location; zoneDate : Z -> Z -> Time }.

(** A location whose offset never changes. *)
Definition fixedZone (loc : Location) : zone :=
  {| offsetAt := fun _ => loc;
     zoneDate := fun day clock =>
       (day * secondsPerDay - loc) * Second + clock |}.

(** A location whose offset changes once, at the instant [change], from
    [before] to [after]: [time.Date] takes the offset in effect at the
    wall clock read as UTC, and the other one when the instant this
    gives is not in the period of that offset. *)
Definition changingZone (change : Time) (before after : Location) : zone :=
  {| offsetAt := fun t => if t <? change then before else after;
     zoneDate := fun day clock =>
       let unix := day * secondsPerDay * Second + clock in
       let offset := if unix <? change then before else after in
       let utc := unix - offset * Second in
       let inside := if unix <? change then utc <? change
                     else change <=? utc in
       let offset := if inside then offset
                     else if utc <? change then before else after in
       unix - offset * Second |}.

(** The number of the calendar day of an instant in the location, and
    its wall clock in nanoseconds after midnight. *)
Definition dayIn (z : zone) (t : Time) : Z := dayOf (offsetAt z t) t.

Definition clockIn (z : zone) (t : Time) : Z :=
  (t + offsetAt z t * Second) mod (secondsPerDay * Second).

(** [t.AddDate(0, 0, 1)]: the wall clock of [t] on the next calendar
    day. *)
Definition AddDate1 (z : zone) (t : Time) : Time :=
  zoneDate z (dayIn z t + 1) (clockIn z t).

(** [time.Date(day.Year(), day.Month(), day.Day(), hour, min, 0, 0, loc)] *)
Definition dateAt (z : zone) (day : Time) (hour min : Z) : Time :=
  zoneDate z (dayIn z day)
           ((hour * secondsPerHour + min * secondsPerMinute) * Second).

(** [findFreeSlots] on the Times of such a location: [Hour()] and
    [Minute()] read the wall clock with the offset in effect at the
    instant. *)
Definition formatSlotIn (z : zone) (f : interval) : string :=
  (fmt.pad02d (HourOf (offsetAt z (start f)) (start f)) ++ ":" ++
   fmt.pad02d (MinuteOf (offsetAt z (start f)) (start f)) ++ "~" ++
   fmt.pad02d (HourOf (offsetAt z (end_ f)) (end_ f)) ++ ":" ++
   fmt.pad02d (MinuteOf (offsetAt z (end_ f)) (end_ f)))%string.

Definition filterStepIn (z : zone) (minDur : Duration)
                        (out : list string) (f : interval) : list string :=
  if longEnough minDur f then out ++ [formatSlotIn z f] else out.

Definition findFreeSlotsIn (z : zone) (dayStart dayEnd : Time)
                           (busyAll : list interval) (minDur : Duration)
  : list string :=
  fold_left (filterStepIn z minDur) (freeOfDay dayStart dayEnd busyAll) [].

(** America/New_York in the weeks around 9 March 2025, when at 07:00 UTC
    its offset went from five to four hours west of UTC. *)
Definition newYork2025 : zone :=
  changingZone ((739318 * secondsPerDay + 7 * secondsPerHour) * Second)
               (-18000) (-14400).

Section Report.

(** [day.Format("2006-01-02")] *)
Variable formatDay : Time -> string.

Definition newline : string := String (ascii_of_nat 10) EmptyString.

(** The body of the loop: the lines it prints for [day], none or one. *)
Definition dayLines (z : zone) (h : hours) (busyAll : list interval)
                    (minDur : Duration) (day : Time) : list string :=
  if (WeekdayOf (offsetAt z day) day =? Saturday)
     || (WeekdayOf (offsetAt z day) day =? Sunday)
  then []
  else
    let dayStart := dateAt z day (wsH h) (wsM h) in
    let dayEnd := dateAt z day (weH h) (weM h) in
    let out := findFreeSlotsIn z dayStart dayEnd busyAll minDur in
    match out with
    | [] => []
    | _ :: _ =>
        [("- " ++ formatDay day ++ "（"
          ++ formatJpWeekday (offsetAt z day) day ++ "） "
          ++ strings.Join out ", " ++ newline)%string]
    end.

(** [for day := startDate; !day.After(endDate); day = day.AddDate(0, 0, 1)],
    with the lines printed so far; [None] when [fuel] turns of the loop
    do not reach its end. *)
Fixpoint dayLoop (fuel : nat) (z : zone) (h : hours)
                 (busyAll : list interval) (minDur : Duration)
                 (day endDate : Time) (printed : list string)
  : option (list string) :=
  match fuel with
  | O => None
  | S fuel' =>
      if negb (After day endDate)
      then dayLoop fuel' z h busyAll minDur (AddDate1 z day) endDate
                   (printed ++ dayLines z h busyAll minDur day)
      else Some printed
  end.

End Report.

(** * Properties *)

(** ** Comparisons *)

Lemma After_lt (t u : Time) : After t u = true <-> u < t.
Proof. unfold After. apply Z.ltb_lt. Qed.

Lemma After_ge (t u : Time) : After t u = false <-> t <= u.
Proof. unfold After. rewrite Z.ltb_ge. reflexivity. Qed.

Lemma Before_lt (t u : Time) : Before t u = true <-> t < u.
Proof. unfold Before. apply Z.ltb_lt. Qed.

Lemma Before_ge (t u : Time) : Before t u = false <-> u <= t.
Proof. unfold Before. rewrite Z.ltb_ge. reflexivity. Qed.

Lemma interval_eq (a b : interval) :
  start a = start b -> end_ a = end_ b -> a = b.
Proof. destruct a, b; simpl; intros; subst; reflexivity. Qed.

(** ** [overlaps] *)

(** The start and the end [overlaps] computes before it compares them. *)
Lemma overlaps_unfold (a b : interval) :
  overlaps a b =
    (if Z.max (start a) (start b) <? Z.min (end_ a) (end_ b)
     then ({| start := Z.max (start a) (start b);
              end_ := Z.min (end_ a) (end_ b) |}, true)
     else (interval_zero, false)).
Proof.
  unfold overlaps, After, Before.
  destruct (Z.ltb_spec (start a) (start b)) as [Hs | Hs];
    destruct (Z.ltb_spec (end_ b) (end_ a)) as [He | He];
    rewrite ?(Z.max_l _ _ Hs), ?(Z.max_r (start a) (start b)) by lia;
    rewrite ?(Z.min_l (end_ a) (end_ b)), ?(Z.min_r (end_ a) (end_ b)) by lia;
    reflexivity.
Qed.

Lemma overlaps_found (a b : interval) :
  snd (overlaps a b) = true <->
  Z.max (start a) (start b) < Z.min (end_ a) (end_ b).
Proof.
  rewrite overlaps_unfold.
  destruct (Z.ltb_spec (Z.max (start a) (start b)) (Z.min (end_ a) (end_ b)));
    simpl; split; intros; try reflexivity; try lia; discriminate.
Qed.

Lemma overlaps_not_found (a b : interval) :
  snd (overlaps a b) = false <->
  Z.min (end_ a) (end_ b) <= Z.max (start a) (start b).
Proof.
  rewrite overlaps_unfold.
  destruct (Z.ltb_spec (Z.max (start a) (start b)) (Z.min (end_ a) (end_ b)));
    simpl; split; intros; try reflexivity; try lia; discriminate.
Qed.

(** Intervals that only touch do not overlap. *)
Lemma overlaps_touching (a b : interval) :
  end_ a = start b -> overlaps a b = (interval_zero, false).
Proof.
  intros H. rewrite overlaps_unfold.
  destruct (Z.ltb_spec (Z.max (start a) (start b)) (Z.min (end_ a) (end_ b)));
    [lia | reflexivity].
Qed.

(** C4: [overlaps a b] takes [s], the later of the two starts, and [e],
    the earlier of the two ends; it answers [({s, e}, true)] when [e] is
    strictly after [s] and [(interval{}, false)] otherwise, so that it
    reports an overlap if and only if [s < e]. *)
Theorem overlaps_max_min (a b : interval) :
  let s := Z.max (start a) (start b) in
  let e := Z.min (end_ a) (end_ b) in
  (s < e -> overlaps a b = ({| start := s; end_ := e |}, true)) /\
  (e <= s -> overlaps a b = (interval_zero, false)) /\
  (snd (overlaps a b) = true <-> s < e).
Proof.
  intros s e. subst s e. rewrite overlaps_unfold.
  destruct (Z.ltb_spec (Z.max (start a) (start b)) (Z.min (end_ a) (end_ b)));
    simpl; repeat split; intros; try reflexivity; try lia; try discriminate.
Qed.

(** C7: [overlaps] gives the same interval and the same flag whichever
    way round its arguments come. *)
Theorem overlaps_sym (a b : interval) : overlaps a b = overlaps b a.
Proof.
  rewrite !overlaps_unfold.
  rewrite (Z.max_comm (start b)), (Z.min_comm (end_ b)). reflexivity.
Qed.


(** ** [sort.Slice] returns a sorted permutation *)

Section SliceFacts.
Context {A : Type} (less : A -> A -> bool).

Lemma sinkLeft_perm (x : A) (l : list A) :
  Permutation (sort.sinkLeft less x l) (x :: l).
Proof.
  induction l as [| y r IH]; simpl.
  - apply Permutation_refl.
  - destruct (less x y).
    + apply perm_trans with (y :: x :: r).
      * apply perm_skip, IH.
      * apply perm_swap.
    + apply Permutation_refl.
Qed.

Lemma insertion_perm (data acc : list A) :
  Permutation (fold_left (fun acc x => sort.sinkLeft less x acc) data acc)
              (data ++ acc).
Proof.
  revert acc. induction data as [| x data IH]; intros acc; simpl.
  - apply Permutation_refl.
  - apply perm_trans with (data ++ sort.sinkLeft less x acc).
    + apply IH.
    + apply perm_trans with (data ++ x :: acc).
      * apply Permutation_app_head, sinkLeft_perm.
      * apply Permutation_sym, Permutation_middle.
Qed.

Lemma Slice_perm (data : list A) : Permutation (sort.Slice less data) data.
Proof.
  unfold sort.Slice.
  apply perm_trans with (fold_left (fun acc x => sort.sinkLeft less x acc) data []).
  - apply Permutation_sym, Permutation_rev.
  - rewrite <- (app_nil_r data) at 2. apply insertion_perm.
Qed.
End SliceFacts.

Lemma Slice_In (less : interval -> interval -> bool) (data : list interval) x :
  In x (sort.Slice less data) <-> In x data.
Proof.
  split; apply Permutation_in;
    [apply Slice_perm | apply Permutation_sym, Slice_perm].
Qed.

Lemma Slice_Forall (less : interval -> interval -> bool) (P : interval -> Prop)
      (data : list interval) :
  Forall P data -> Forall P (sort.Slice less data).
Proof.
  rewrite !Forall_forall. intros H x Hx. apply H, (Slice_In less), Hx.
Qed.

Lemma Slice_nil (less : interval -> interval -> bool) (data : list interval) :
  sort.Slice less data = [] <-> data = [].
Proof.
  split; intros H.
  - apply Permutation_nil. rewrite <- H. apply Slice_perm.
  - subst. reflexivity.
Qed.

Lemma sinkLeft_Forall (P : interval -> Prop) x l :
  P x -> Forall P l -> Forall P (sort.sinkLeft lessStart x l).
Proof.
  intros Hx Hl. induction Hl as [| y r Hy Hr IH]; simpl.
  - constructor; [assumption | constructor].
  - destruct (lessStart x y); repeat constructor; assumption.
Qed.

Lemma sinkLeft_sorted x l :
  StronglySorted geStart l ->
  StronglySorted geStart (sort.sinkLeft lessStart x l).
Proof.
  induction 1 as [| y r Hr IH Hy]; simpl.
  - repeat constructor.
  - unfold lessStart. destruct (Before (start x) (start y)) eqn:E.
    + apply Before_lt in E. constructor; [exact IH |].
      apply sinkLeft_Forall; [unfold geStart; lia | exact Hy].
    + apply Before_ge in E. constructor.
      * constructor; assumption.
      * constructor; [exact E |].
        revert Hy. apply Forall_impl. unfold geStart. intros; lia.
  Qed.

Lemma insertion_sorted data acc :
  StronglySorted geStart acc ->
  StronglySorted geStart
    (fold_left (fun acc x => sort.sinkLeft lessStart x acc) data acc).
Proof.
  revert acc. induction data as [| x data IH]; intros acc H; simpl.
  - exact H.
  - apply IH, sinkLeft_sorted, H.
Qed.

Lemma StronglySorted_snoc (R : interval -> interval -> Prop) l x :
  StronglySorted R l -> Forall (fun y => R y x) l ->
  StronglySorted R (l ++ [x]).
Proof.
  induction 1 as [| y r Hr IH Hy]; intros Hx; simpl.
  - repeat constructor.
  - inversion Hx; subst. constructor.
    + apply IH; assumption.
    + apply Forall_app; split; [exact Hy | repeat constructor; assumption].
Qed.

Lemma StronglySorted_rev l :
  StronglySorted geStart l -> StronglySorted leStart (rev l).
Proof.
  induction 1 as [| y r Hr IH Hy]; simpl.
  - constructor.
  - apply StronglySorted_snoc; [exact IH |].
    apply Forall_rev. exact Hy.
Qed.

Lemma Slice_sorted (data : list interval) :
  StronglySorted leStart (sort.Slice lessStart data).
Proof.
  unfold sort.Slice. apply StronglySorted_rev, insertion_sorted. constructor.
Qed.

(** A slice that is in order already comes back as it is. *)
Lemma insertion_of_sorted data acc :
  StronglySorted leStart data ->
  (forall y, In y acc -> Forall (leStart y) data) ->
  fold_left (fun acc x => sort.sinkLeft lessStart x acc) data acc
  = rev data ++ acc.
Proof.
  revert acc. induction data as [| x data IH]; intros acc Hs Hacc; simpl.
  - reflexivity.
  - inversion Hs as [| ? ? Hs' Hx]; subst.
    assert (E : sort.sinkLeft lessStart x acc = x :: acc).
    { destruct acc as [| y r]; simpl; [reflexivity |].
      specialize (Hacc y (or_introl eq_refl)). inversion Hacc; subst.
      unfold lessStart. replace (Before (start x) (start y)) with false;
        [reflexivity |].
      symmetry. apply Before_ge. assumption. }
    rewrite E, IH.
    + rewrite <- app_assoc. reflexivity.
    + exact Hs'.
    + intros y [<- | Hy]; [exact Hx |].
      specialize (Hacc y Hy). inversion Hacc; assumption.
Qed.

Lemma Slice_of_sorted (data : list interval) :
  StronglySorted leStart data -> sort.Slice lessStart data = data.
Proof.
  intros H. unfold sort.Slice. rewrite insertion_of_sorted.
  - rewrite app_nil_r. apply rev_involutive.
  - exact H.
  - intros y [].
Qed.

(** ** [mergeIntervals] *)

Lemma mergeStep_fold (rest init : list interval) (last : interval) :
  (let (init', last') := fold_left mergeStep rest (init, last) in
   init' ++ [last'])
  = init ++ mergeFrom last rest.
Proof.
  revert init last. induction rest as [| cur rest IH]; intros init last.
  - reflexivity.
  - cbn [fold_left mergeFrom].
    change (mergeStep (init, last) cur) with
      (if After (start cur) (end_ last) then (init ++ [last], cur)
       else if After (end_ cur) (end_ last)
            then (init, {| start := start last; end_ := end_ cur |})
            else (init, last)).
    destruct (After (start cur) (end_ last)).
    + rewrite IH, <- app_assoc. reflexivity.
    + destruct (After (end_ cur) (end_ last)); apply IH.
Qed.

Lemma mergeIntervals_unfold (inp : list interval) :
  mergeIntervals inp =
    match sort.Slice lessStart inp with
    | [] => []
    | first :: rest => mergeFrom first rest
    end.
Proof.
  unfold mergeIntervals. destruct inp as [| x inp]; [reflexivity |].
  destruct (sort.Slice lessStart (x :: inp)) as [| f r].
  - reflexivity.
  - apply (mergeStep_fold r [] f).
Qed.

Lemma mergeIntervals_nil : mergeIntervals [] = [].
Proof. reflexivity. Qed.

(** Every start in the output is a start of the input, every end an end
    of the input: bounds on the input are bounds on the output. *)
Lemma mergeFrom_within lo hi rest : forall last,
  within lo hi last -> Forall (within lo hi) rest ->
  Forall (within lo hi) (mergeFrom last rest).
Proof.
  induction rest as [| cur rest IH]; intros last Hl Hr; simpl.
  - constructor; [assumption | constructor].
  - inversion Hr; subst.
    destruct (After (start cur) (end_ last)).
    + constructor; [assumption | apply IH; assumption].
    + destruct (After (end_ cur) (end_ last)); apply IH; try assumption.
      unfold within in *; simpl; lia.
Qed.

Lemma mergeFrom_lower lo rest : forall last,
  lo <= start last -> Forall (fun x => lo <= start x) rest ->
  Forall (fun x => lo <= start x) (mergeFrom last rest).
Proof.
  induction rest as [| cur rest IH]; intros last Hl Hr; simpl.
  - constructor; [assumption | constructor].
  - inversion Hr; subst.
    destruct (After (start cur) (end_ last)).
    + constructor; [assumption | apply IH; assumption].
    + destruct (After (end_ cur) (end_ last)); apply IH; assumption.
Qed.

Lemma mergeFrom_wellFormed rest : forall last,
  wellFormed last -> Forall wellFormed rest ->
  Forall wellFormed (mergeFrom last rest).
Proof.
  induction rest as [| cur rest IH]; intros last Hl Hr; simpl.
  - constructor; [assumption | constructor].
  - inversion Hr; subst.
    destruct (After (start cur) (end_ last)) eqn:E1.
    + constructor; [assumption | apply IH; assumption].
    + destruct (After (end_ cur) (end_ last)) eqn:E2; apply IH; try assumption.
      apply After_lt in E2. unfold wellFormed in *; simpl; lia.
Qed.

(** The first interval of the output starts where [last] starts and
    ends no earlier than [last]. *)
Lemma mergeFrom_head rest : forall last,
  exists o tl, mergeFrom last rest = o :: tl /\
               start o = start last /\ end_ last <= end_ o.
Proof.
  induction rest as [| cur rest IH]; intros last; simpl.
  - exists last, []. repeat split; lia.
  - destruct (After (start cur) (end_ last)) eqn:E1.
    + exists last, (mergeFrom cur rest). repeat split; lia.
    + destruct (After (end_ cur) (end_ last)) eqn:E2.
      * destruct (IH {| start := start last; end_ := end_ cur |})
          as (o & tl & -> & Hs & He).
        apply After_lt in E2. simpl in *. exists o, tl. repeat split; lia.
      * apply IH.
Qed.

(** The output is pairwise apart, whatever the intervals look like,
    as soon as the input is in order. *)
Lemma mergeFrom_apart rest : forall last,
  Forall (leStart last) rest -> StronglySorted leStart rest ->
  pairwise apart (mergeFrom last rest).
Proof.
  unfold pairwise.
  induction rest as [| cur rest IH]; intros last Hl Hs; simpl.
  - repeat constructor.
  - inversion Hl; subst. inversion Hs; subst.
    destruct (After (start cur) (end_ last)) eqn:E1.
    + apply After_lt in E1. constructor.
      * apply IH; assumption.
      * assert (H : Forall (fun x => start cur <= start x) (mergeFrom cur rest)).
        { apply mergeFrom_lower; [lia | assumption]. }
        revert H. apply Forall_impl. unfold apart. intros; lia.
    + destruct (After (end_ cur) (end_ last)); apply IH; assumption.
Qed.

Lemma mergeFrom_sorted rest : forall last,
  Forall (leStart last) rest -> StronglySorted leStart rest ->
  StronglySorted leStart (mergeFrom last rest).
Proof.
  induction rest as [| cur rest IH]; intros last Hl Hs; simpl.
  - repeat constructor.
  - inversion Hl; subst. inversion Hs; subst.
    destruct (After (start cur) (end_ last)) eqn:E1.
    + constructor.
      * apply IH; assumption.
      * apply (mergeFrom_lower (start last)); [assumption |].
        revert H2. apply Forall_impl. unfold leStart. intros; lia.
    + destruct (After (end_ cur) (end_ last)); apply IH; assumption.
Qed.

Lemma apart_ltStart l :
  Forall wellFormed l -> pairwise apart l -> pairwise ltStart l.
Proof.
  unfold pairwise. intros Hwf Hs. induction Hs as [| x l Hl IH Hx].
  - constructor.
  - inversion Hwf; subst. constructor.
    + apply IH; assumption.
    + revert Hx. apply Forall_impl.
      unfold apart, ltStart, wellFormed in *. intros; lia.
Qed.

Lemma apart_not_overlapping l :
  Forall wellFormed l -> pairwise apart l ->
  pairwise (fun x y => snd (overlaps x y) = false) l.
Proof.
  unfold pairwise. intros Hwf Hs. induction Hs as [| x l Hl IH Hx].
  - constructor.
  - inversion Hwf; subst. constructor.
    + apply IH; assumption.
    + revert Hx. apply Forall_impl. intros y Hy.
      apply overlaps_not_found. unfold apart in Hy. lia.
Qed.

(** Every interval the loop has gone through lies inside one interval
    of the output. *)
Lemma mergeFrom_covers rest : forall last,
  Forall (leStart last) rest -> StronglySorted leStart rest ->
  forall x, In x (last :: rest) ->
  exists o, In o (mergeFrom last rest) /\ covers o x.
Proof.
  induction rest as [| cur rest IH]; intros last Hl Hs x Hx.
  - destruct Hx as [<- | []]. exists last. split; [left; reflexivity |].
    unfold covers; lia.
  - inversion Hl as [| ? ? Hlc Hlr]; subst.
    inversion Hs as [| ? ? Hs' Hc]; subst.
    unfold leStart in Hlc. simpl mergeFrom.
    destruct (After (start cur) (end_ last)) eqn:E1.
    + destruct Hx as [<- | Hx].
      * exists last. split; [left; reflexivity | unfold covers; lia].
      * destruct (IH cur Hc Hs' x Hx) as (o & Ho & Hcov).
        exists o. split; [right; exact Ho | exact Hcov].
    + apply After_ge in E1.
      destruct (After (end_ cur) (end_ last)) eqn:E2.
      * apply After_lt in E2.
        set (last' := {| start := start last; end_ := end_ cur |}).
        destruct (mergeFrom_head rest last') as (o & tl & Eo & Hos & Hoe).
        simpl in Hos, Hoe.
        destruct Hx as [<- | [<- | Hx]].
        -- exists o. rewrite Eo. split; [left; reflexivity |].
           unfold covers; lia.
        -- exists o. rewrite Eo. split; [left; reflexivity |].
           unfold covers; lia.
        -- apply (IH last'); [exact Hlr | exact Hs' | right; exact Hx].
      * apply After_ge in E2.
        destruct (mergeFrom_head rest last) as (o & tl & Eo & Hos & Hoe).
        destruct Hx as [<- | [<- | Hx]].
        -- apply (IH last); [exact Hlr | exact Hs' | left; reflexivity].
        -- exists o. rewrite Eo. split; [left; reflexivity |].
           unfold covers; lia.
        -- apply (IH last); [exact Hlr | exact Hs' | right; exact Hx].
Qed.

(** Intervals that are apart already are left as they are. *)
Lemma mergeFrom_of_apart rest : forall last,
  pairwise apart (last :: rest) -> mergeFrom last rest = last :: rest.
Proof.
  unfold pairwise.
  induction rest as [| cur rest IH]; intros last H.
  - reflexivity.
  - inversion H as [| ? ? Hs Hf]; subst. inversion Hf; subst.
    simpl. replace (After (start cur) (end_ last)) with true.
    + f_equal. apply IH. exact Hs.
    + symmetry. apply After_lt. assumption.
Qed.

Lemma sorted_head (x : interval) l :
  StronglySorted leStart (x :: l) ->
  Forall (leStart x) l /\ StronglySorted leStart l.
Proof. intros H. inversion H; subst. split; assumption. Qed.

(** What [mergeIntervals] returns, for an input that is not empty. *)
Lemma mergeIntervals_sorted_apart (xs : list interval) :
  StronglySorted leStart (mergeIntervals xs) /\
  pairwise apart (mergeIntervals xs).
Proof.
  rewrite mergeIntervals_unfold.
  pose proof (Slice_sorted xs) as Hs.
  destruct (sort.Slice lessStart xs) as [| f r].
  - split; constructor.
  - apply sorted_head in Hs. destruct Hs as [Hf Hr]. split.
    + apply mergeFrom_sorted; assumption.
    + apply mergeFrom_apart; assumption.
Qed.

Lemma mergeIntervals_wellFormed (xs : list interval) :
  Forall wellFormed xs -> Forall wellFormed (mergeIntervals xs).
Proof.
  intros H. rewrite mergeIntervals_unfold.
  apply (Slice_Forall lessStart) in H.
  destruct (sort.Slice lessStart xs) as [| f r].
  - constructor.
  - inversion H; subst. apply mergeFrom_wellFormed; assumption.
Qed.

Lemma mergeIntervals_within lo hi (xs : list interval) :
  Forall (within lo hi) xs -> Forall (within lo hi) (mergeIntervals xs).
Proof.
  intros H. rewrite mergeIntervals_unfold.
  apply (Slice_Forall lessStart) in H.
  destruct (sort.Slice lessStart xs) as [| f r].
  - constructor.
  - inversion H; subst. apply mergeFrom_within; assumption.
Qed.

Lemma mergeIntervals_covers (xs : list interval) x :
  In x xs -> exists o, In o (mergeIntervals xs) /\ covers o x.
Proof.
  intros Hx. rewrite mergeIntervals_unfold.
  apply (Slice_In lessStart) in Hx.
  pose proof (Slice_sorted xs) as Hs.
  destruct (sort.Slice lessStart xs) as [| f r].
  - destruct Hx.
  - apply sorted_head in Hs. destruct Hs as [Hf Hr].
    apply mergeFrom_covers; assumption.
Qed.

(** C3: on well-formed intervals, in any order, [mergeIntervals] returns
    intervals whose starts go strictly up and each of which ends strictly
    before every later one starts, so that no two of them overlap or
    touch; on the empty input it returns the empty slice. *)
Theorem mergeIntervals_ascending_apart (xs : list interval) :
  Forall wellFormed xs ->
  pairwise ltStart (mergeIntervals xs) /\
  pairwise apart (mergeIntervals xs) /\
  pairwise (fun x y => snd (overlaps x y) = false) (mergeIntervals xs) /\
  mergeIntervals [] = [].
Proof.
  intros Hwf.
  pose proof (mergeIntervals_wellFormed xs Hwf) as Hout.
  destruct (mergeIntervals_sorted_apart xs) as [_ Hap].
  repeat split.
  - apply apart_ltStart; assumption.
  - exact Hap.
  - apply apart_not_overlapping; assumption.
Qed.

Lemma mergeIntervals_ascending_apart_witness :
  let xs := [mkInterval 11 12; mkInterval 9 10; mkInterval 14 15;
             mkInterval 9 11] in
  Forall wellFormed xs /\
  mergeIntervals xs = [mkInterval 9 12; mkInterval 14 15] /\
  pairwise ltStart (mergeIntervals xs).
Proof.
  assert (Hwf : Forall wellFormed
                  [mkInterval 11 12; mkInterval 9 10; mkInterval 14 15;
                   mkInterval 9 11]).
  { repeat constructor. }
  split; [exact Hwf |]. split; [reflexivity |].
  exact (proj1 (mergeIntervals_ascending_apart _ Hwf)).
Defined.

(** C6: merging what [mergeIntervals] returned changes nothing. *)
Theorem mergeIntervals_idempotent (xs : list interval) :
  mergeIntervals (mergeIntervals xs) = mergeIntervals xs.
Proof.
  destruct (mergeIntervals_sorted_apart xs) as [Hs Hap].
  rewrite (mergeIntervals_unfold (mergeIntervals xs)).
  rewrite (Slice_of_sorted _ Hs).
  destruct (mergeIntervals xs) as [| o tl].
  - reflexivity.
  - apply mergeFrom_of_apart. exact Hap.
Qed.

(** *** Adjacent intervals *)

(** Outside the data model: an interval that ends before it starts is
    not coalesced with the one it follows.  The data model has no such
    interval, and the caller of [mergeIntervals] passes none, since what
    it passes went through the strict test of [overlaps]. *)
Lemma adjacency_backwards_interval :
  let a := mkInterval 0 10 in
  let b := mkInterval 10 5 in
  end_ a = start b /\
  mergeIntervals [a; b] = [mkInterval 0 10] /\
  mergeIntervals [a; b] <> [{| start := start a; end_ := end_ b |}].
Proof.
  split; [reflexivity |]. split; [reflexivity |]. discriminate.
Qed.

(** C2: for two intervals of the data model, neither of which ends
    before it starts, with [a] ending where [b] starts (such as {0,10}
    and {10,20}): [overlaps a b] finds no overlap and returns
    [(interval{}, false)], while [mergeIntervals] coalesces the two into
    the single interval [{a.start, b.end}] (here {0,20}). *)
Theorem adjacency_asymmetry (a b : interval) :
  end_ a = start b ->
  start a <= end_ a ->
  start b <= end_ b ->
  overlaps a b = (interval_zero, false) /\
  mergeIntervals [a; b] = [{| start := start a; end_ := end_ b |}].
Proof.
  intros Hab Ha Hb. split.
  - apply overlaps_touching. exact Hab.
  - rewrite mergeIntervals_unfold, Slice_of_sorted.
    + simpl. replace (After (start b) (end_ a)) with false
        by (symmetry; apply After_ge; lia).
      destruct (After (end_ b) (end_ a)) eqn:E.
      * reflexivity.
      * apply After_ge in E. f_equal. apply interval_eq; simpl; lia.
    + repeat constructor. unfold leStart. lia.
Qed.

Lemma adjacency_asymmetry_witness :
  overlaps (mkInterval 0 10) (mkInterval 10 20) = (interval_zero, false) /\
  mergeIntervals [mkInterval 0 10; mkInterval 10 20] = [mkInterval 0 20].
Proof.
  apply (adjacency_asymmetry (mkInterval 0 10) (mkInterval 10 20));
    simpl; lia.
Defined.

(** ** The sweep of [findFreeSlots] *)

Lemma clipStep_fold (dayWin : interval) (busyAll busy : list interval) :
  fold_left (clipStep dayWin) busyAll busy = busy ++ clip dayWin busyAll.
Proof.
  revert busy. induction busyAll as [| ev rest IH]; intros busy; simpl.
  - symmetry. apply app_nil_r.
  - rewrite IH. unfold clipStep.
    destruct (overlaps ev dayWin) as [inter [|]].
    + rewrite <- app_assoc. reflexivity.
    + reflexivity.
Qed.

Lemma busyOfDay_unfold dayStart dayEnd busyAll :
  busyOfDay dayStart dayEnd busyAll
  = mergeIntervals (clip {| start := dayStart; end_ := dayEnd |} busyAll).
Proof. unfold busyOfDay. rewrite clipStep_fold. reflexivity. Qed.

Lemma sweepStep_fold (dayEnd : Time) (busy free : list interval) (cursor : Time) :
  (let (free', cursor') := fold_left sweepStep busy (free, cursor) in
   if Before cursor' dayEnd
   then free' ++ [{| start := cursor'; end_ := dayEnd |}]
   else free')
  = free ++ sweepFrom cursor busy dayEnd.
Proof.
  revert free cursor. induction busy as [| b busy IH]; intros free cursor.
  - simpl. destruct (Before cursor dayEnd); [reflexivity |].
    symmetry. apply app_nil_r.
  - cbn [fold_left sweepFrom].
    change (sweepStep (free, cursor) b) with
      (if After (start b) cursor
       then free ++ [{| start := cursor; end_ := start b |}]
       else free,
       if After (end_ b) cursor then end_ b else cursor).
    rewrite IH. destruct (After (start b) cursor).
    + rewrite <- app_assoc. reflexivity.
    + reflexivity.
Qed.

Lemma freeOfDay_unfold dayStart dayEnd busyAll :
  freeOfDay dayStart dayEnd busyAll
  = sweepFrom dayStart (busyOfDay dayStart dayEnd busyAll) dayEnd.
Proof.
  unfold freeOfDay. apply (sweepStep_fold dayEnd _ [] dayStart).
Qed.

Lemma filterStep_fold loc minDur (free : list interval) (out : list string) :
  fold_left (filterStep loc minDur) free out
  = out ++ map (formatSlot loc) (filter (longEnough minDur) free).
Proof.
  revert out. induction free as [| f free IH]; intros out; simpl.
  - symmetry. apply app_nil_r.
  - rewrite IH. unfold filterStep. destruct (longEnough minDur f).
    + rewrite <- app_assoc. reflexivity.
    + reflexivity.
Qed.

Lemma findFreeSlots_unfold loc dayStart dayEnd busyAll minDur :
  findFreeSlots loc dayStart dayEnd busyAll minDur
  = map (formatSlot loc)
        (filter (longEnough minDur) (freeOfDay dayStart dayEnd busyAll)).
Proof. unfold findFreeSlots. apply filterStep_fold. Qed.

(** What survives the clipping is well formed and inside the window. *)
Lemma clip_inside dayStart dayEnd busyAll :
  Forall (fun x => wellFormed x /\ within dayStart dayEnd x)
         (clip {| start := dayStart; end_ := dayEnd |} busyAll).
Proof.
  induction busyAll as [| ev rest IH]; simpl.
  - constructor.
  - rewrite overlaps_unfold. simpl.
    destruct (Z.ltb_spec (Z.max (start ev) dayStart) (Z.min (end_ ev) dayEnd)).
    + constructor; [| exact IH].
      unfold wellFormed, within. simpl. lia.
    + exact IH.
Qed.

Lemma clip_In dayWin busyAll ev :
  In ev busyAll -> snd (overlaps ev dayWin) = true ->
  In (fst (overlaps ev dayWin)) (clip dayWin busyAll).
Proof.
  induction busyAll as [| ev' rest IH]; intros Hin Hok; simpl.
  - destruct Hin.
  - destruct Hin as [-> | Hin].
    + destruct (overlaps ev dayWin) as [inter ok]. simpl in *. subst ok.
      left. reflexivity.
    + destruct (overlaps ev' dayWin) as [inter' [|]];
        [right |]; apply IH; assumption.
Qed.

(** A degenerate window lets no busy interval through. *)
Lemma clip_degenerate dayStart dayEnd busyAll :
  dayEnd <= dayStart ->
  clip {| start := dayStart; end_ := dayEnd |} busyAll = [].
Proof.
  intros H. induction busyAll as [| ev rest IH]; simpl.
  - reflexivity.
  - rewrite overlaps_unfold. simpl.
    destruct (Z.ltb_spec (Z.max (start ev) dayStart) (Z.min (end_ ev) dayEnd)).
    + lia.
    + exact IH.
Qed.

(** Every interval the sweep emits has a positive length. *)
Lemma sweepFrom_wellFormed dayEnd busy : forall cursor,
  Forall wellFormed (sweepFrom cursor busy dayEnd).
Proof.
  induction busy as [| b busy IH]; intros cursor; simpl.
  - destruct (Before cursor dayEnd) eqn:E; [| constructor].
    apply Before_lt in E. constructor; [exact E | constructor].
  - destruct (After (start b) cursor) eqn:E; [| apply IH].
    apply After_lt in E. constructor; [exact E | apply IH].
Qed.

(** The invariant of the sweep over busy intervals that are well formed,
    pairwise apart, not before the cursor and not after the end of the
    day: what it emits starts at the cursor or later, stays inside the
    day, and meets none of the busy intervals. *)
Lemma sweepFrom_gaps dayEnd busy : forall cursor,
  Forall (fun b => cursor <= start b /\ wellFormed b /\ end_ b <= dayEnd) busy ->
  pairwise apart busy ->
  (forall f, In f (sweepFrom cursor busy dayEnd) ->
             cursor <= start f /\ end_ f <= dayEnd /\
             forall b, In b busy -> disjoint f b) /\
  pairwise apart (sweepFrom cursor busy dayEnd).
Proof.
  unfold pairwise.
  induction busy as [| b busy IH]; intros cursor Hb Hap; simpl.
  - destruct (Before cursor dayEnd); split;
      try (repeat constructor; fail).
    + intros f [<- | []]. simpl. repeat split; try lia; intros b [].
    + intros f [].
  - inversion Hb as [| ? ? (Hc & Hwf & He) Hb']; subst.
    inversion Hap as [| ? ? Hap' Hfar]; subst.
    unfold wellFormed in Hwf.
    replace (After (end_ b) cursor) with true
      by (symmetry; apply After_lt; lia).
    assert (Hnext : Forall (fun b' => end_ b <= start b' /\ wellFormed b' /\
                                      end_ b' <= dayEnd) busy).
    { rewrite Forall_forall in *. intros b' Hb'in.
      specialize (Hb' b' Hb'in). specialize (Hfar b' Hb'in).
      unfold apart in Hfar. intuition lia. }
    destruct (IH (end_ b) Hnext Hap') as [Hgaps Hsorted].
    assert (Hrest : forall f, In f (sweepFrom (end_ b) busy dayEnd) ->
              cursor <= start f /\ end_ f <= dayEnd /\
              forall b', In b' (b :: busy) -> disjoint f b').
    { intros f Hf. destruct (Hgaps f Hf) as (H1 & H2 & H3).
      repeat split; try lia.
      intros b' [<- | Hin]; [right; exact H1 | apply H3; exact Hin]. }
    destruct (After (start b) cursor) eqn:E; [| split; assumption].
    apply After_lt in E. split.
    + intros f [<- | Hf]; [| apply Hrest; exact Hf].
      simpl. repeat split; try lia.
      intros b' [<- | Hin]; left; simpl; [lia |].
      rewrite Forall_forall in Hfar. specialize (Hfar b' Hin).
      unfold apart in Hfar. lia.
    + constructor; [exact Hsorted |].
      rewrite Forall_forall. intros f Hf.
      destruct (Hgaps f Hf) as (H1 & _). unfold apart. simpl. lia.
Qed.

(** The merged busy intervals of a day. *)
Lemma busyOfDay_inside dayStart dayEnd busyAll :
  Forall (fun b => dayStart <= start b /\ wellFormed b /\ end_ b <= dayEnd)
         (busyOfDay dayStart dayEnd busyAll).
Proof.
  rewrite busyOfDay_unfold.
  pose proof (clip_inside dayStart dayEnd busyAll) as H.
  set (c := clip _ busyAll) in *.
  assert (Hwf : Forall wellFormed (mergeIntervals c)).
  { apply mergeIntervals_wellFormed. revert H. apply Forall_impl. tauto. }
  assert (Hin : Forall (within dayStart dayEnd) (mergeIntervals c)).
  { apply mergeIntervals_within. revert H. apply Forall_impl. tauto. }
  rewrite Forall_forall in *. intros b Hb.
  specialize (Hwf b Hb). specialize (Hin b Hb). unfold within in Hin. tauto.
Qed.

(** A free interval inside the window that meets no merged busy interval
    meets no busy interval of the input. *)
Lemma free_of_input dayStart dayEnd busyAll f ev :
  within dayStart dayEnd f -> wellFormed f ->
  (forall b, In b (busyOfDay dayStart dayEnd busyAll) -> disjoint f b) ->
  In ev busyAll ->
  snd (overlaps f ev) = false.
Proof.
  intros Hin Hwf Hfree Hev. apply overlaps_not_found.
  unfold within, wellFormed in *.
  set (dayWin := {| start := dayStart; end_ := dayEnd |}).
  destruct (snd (overlaps ev dayWin)) eqn:Hok.
  - pose proof (clip_In dayWin busyAll ev Hev Hok) as Hc.
    apply overlaps_found in Hok.
    destruct (mergeIntervals_covers _ _ Hc) as (o & Ho & Hcov).
    subst dayWin. rewrite <- busyOfDay_unfold in Ho.
    specialize (Hfree o Ho). unfold disjoint in Hfree. unfold covers in Hcov.
    rewrite overlaps_unfold in Hcov. simpl in Hok, Hcov.
    destruct (Z.ltb_spec (Z.max (start ev) dayStart) (Z.min (end_ ev) dayEnd));
      [| lia].
    simpl in Hcov. lia.
  - apply overlaps_not_found in Hok. simpl in Hok. lia.
Qed.

(** C10: every interval the sweep of [findFreeSlots] puts into [free]
    lies inside the day window, has a positive length and overlaps no
    busy interval of the input; the intervals of [free] come with their
    starts going strictly up, each ending strictly before every later
    one starts.  This holds for every day window, the well-formed ones
    among them. *)
Theorem free_intervals_invariant (dayStart dayEnd : Time)
                                 (busyAll : list interval) :
  let free := freeOfDay dayStart dayEnd busyAll in
  Forall (fun f =>
            within dayStart dayEnd f /\
            wellFormed f /\
            Forall (fun ev => snd (overlaps f ev) = false) busyAll) free /\
  pairwise ltStart free /\
  pairwise apart free /\
  pairwise (fun f g => snd (overlaps f g) = false) free.
Proof.
  intros free. subst free. rewrite freeOfDay_unfold.
  pose proof (busyOfDay_inside dayStart dayEnd busyAll) as Hbusy.
  assert (Hap : pairwise apart (busyOfDay dayStart dayEnd busyAll)).
  { rewrite busyOfDay_unfold. apply mergeIntervals_sorted_apart. }
  destruct (sweepFrom_gaps dayEnd _ dayStart Hbusy Hap) as [Hgaps Hsorted].
  pose proof (sweepFrom_wellFormed dayEnd
                (busyOfDay dayStart dayEnd busyAll) dayStart) as Hwf.
  repeat split.
  - rewrite Forall_forall in *. intros f Hf.
    destruct (Hgaps f Hf) as (H1 & H2 & H3). specialize (Hwf f Hf).
    assert (Hin : within dayStart dayEnd f) by (split; assumption).
    repeat split; try assumption.
    rewrite Forall_forall. intros ev Hev.
    apply (free_of_input dayStart dayEnd busyAll); assumption.
  - apply apart_ltStart; assumption.
  - exact Hsorted.
  - apply apart_not_overlapping; assumption.
Qed.

(** *** A window that ends before it starts *)

Lemma freeOfDay_degenerate dayStart dayEnd busyAll :
  dayEnd <= dayStart -> freeOfDay dayStart dayEnd busyAll = [].
Proof.
  intros H. rewrite freeOfDay_unfold, busyOfDay_unfold.
  rewrite clip_degenerate by exact H.
  rewrite mergeIntervals_nil. simpl.
  replace (Before dayStart dayEnd) with false; [reflexivity |].
  symmetry. apply Before_ge. exact H.
Qed.

(** C9: when the day window ends before it starts, [findFreeSlots]
    returns the empty list of slots, whatever the busy intervals and the
    minimum duration are: no busy interval survives the clipping and the
    cursor, which starts at [dayStart], is not before [dayEnd]. *)
Theorem findFreeSlots_degenerate_window
        (loc : Location) (dayStart dayEnd : Time)
        (busyAll : list interval) (minDur : Duration) :
  dayEnd < dayStart ->
  fold_left (clipStep {| start := dayStart; end_ := dayEnd |}) busyAll [] = [] /\
  Before dayStart dayEnd = false /\
  findFreeSlots loc dayStart dayEnd busyAll minDur = [].
Proof.
  intros H. repeat split.
  - rewrite clipStep_fold. apply clip_degenerate. lia.
  - apply Before_ge. lia.
  - rewrite findFreeSlots_unfold, freeOfDay_degenerate by lia. reflexivity.
Qed.

Lemma findFreeSlots_degenerate_window_witness :
  findFreeSlots 32400 (time.Date 739263 17 0 32400) (time.Date 739263 9 0 32400)
    [mkInterval (time.Date 739263 10 0 32400) (time.Date 739263 10 30 32400)]
    0 = [].
Proof.
  apply (findFreeSlots_degenerate_window 32400
           (time.Date 739263 17 0 32400) (time.Date 739263 9 0 32400)).
  vm_compute. reflexivity.
Defined.

(** *** The minimum duration *)

Lemma Sub_positive (t u : Time) :
  u < t -> Sub t u = Z.min (t - u) maxDuration.
Proof.
  intros H. unfold Sub, minDuration, maxDuration.
  destruct (Z.ltb_spec (t - u) (- 2 ^ 63)); [lia |].
  destruct (Z.ltb_spec (2 ^ 63 - 1) (t - u)); lia.
Qed.

Lemma longEnough_iff (minDur : Duration) (f : interval) :
  is_Duration minDur -> wellFormed f ->
  longEnough minDur f = (minDur <=? end_ f - start f).
Proof.
  unfold is_Duration, wellFormed, longEnough. intros Hd Hf.
  rewrite (Sub_positive _ _ Hf).
  destruct (Z.leb_spec minDur (end_ f - start f));
    [apply Z.leb_le | apply Z.leb_gt]; lia.
Qed.

Lemma freeOfDay_wellFormed dayStart dayEnd busyAll :
  Forall wellFormed (freeOfDay dayStart dayEnd busyAll).
Proof. rewrite freeOfDay_unfold. apply sweepFrom_wellFormed. Qed.

(** C5: the slots [findFreeSlots] returns are the free intervals of the
    day whose length [end - start] is at least the minimum duration, in
    their order and formatted; a free interval exactly as long as the
    minimum passes the test of the filter and one that is a nanosecond
    shorter does not. *)
Theorem min_duration_inclusive
        (loc : Location) (dayStart dayEnd : Time)
        (busyAll : list interval) (minDur : Duration) :
  is_Duration minDur ->
  let free := freeOfDay dayStart dayEnd busyAll in
  findFreeSlots loc dayStart dayEnd busyAll minDur
  = map (formatSlot loc)
        (filter (fun f => minDur <=? end_ f - start f) free) /\
  (forall f, In f free ->
             (longEnough minDur f = true <-> minDur <= end_ f - start f)) /\
  (forall f, In f free -> end_ f - start f = minDur ->
             longEnough minDur f = true) /\
  (forall f, In f free -> end_ f - start f = minDur - Nanosecond ->
             longEnough minDur f = false).
Proof.
  intros Hd free.
  assert (Hwf : forall f, In f free -> wellFormed f).
  { apply Forall_forall, freeOfDay_wellFormed. }
  repeat split.
  - rewrite findFreeSlots_unfold. f_equal. apply filter_ext_in.
    intros f Hf. apply longEnough_iff; auto.
  - rewrite longEnough_iff by auto. apply Z.leb_le.
  - rewrite longEnough_iff by auto. apply Z.leb_le.
  - intros f Hf E. rewrite longEnough_iff by auto. apply Z.leb_le. lia.
  - intros f Hf E. rewrite longEnough_iff by auto. apply Z.leb_gt.
    unfold Nanosecond in E. lia.
Qed.

Lemma min_duration_inclusive_witness :
  let loc := 32400 in
  let dayStart := time.Date 739263 9 0 loc in
  let dayEnd := time.Date 739263 17 0 loc in
  is_Duration (8 * Hour) /\
  freeOfDay dayStart dayEnd [] = [mkInterval dayStart dayEnd] /\
  findFreeSlots loc dayStart dayEnd [] (8 * Hour) = ["09:00~17:00"%string] /\
  findFreeSlots loc dayStart dayEnd [] (8 * Hour + Nanosecond) = [] /\
  findFreeSlots loc dayStart dayEnd [] (8 * Hour)
  = map (formatSlot loc)
        (filter (fun f => 8 * Hour <=? end_ f - start f)
                (freeOfDay dayStart dayEnd [])).
Proof.
  assert (Hd : is_Duration (8 * Hour)) by (vm_compute; split; discriminate).
  split; [exact Hd |].
  split; [vm_compute; reflexivity |].
  split; [vm_compute; reflexivity |].
  split; [vm_compute; reflexivity |].
  exact (proj1 (min_duration_inclusive 32400 (time.Date 739263 9 0 32400)
                  (time.Date 739263 17 0 32400) [] (8 * Hour) Hd)).
Defined.

(** ** The wall clock of a date *)

Lemma abs_Date (loc : Location) (day h m : Z) :
  abs loc (time.Date day h m loc)
  = day * secondsPerDay + h * secondsPerHour + m * secondsPerMinute.
Proof.
  unfold abs, time.Date. rewrite Z.div_mul by (vm_compute; discriminate). lia.
Qed.

Lemma HourOf_Date (loc : Location) (day h m : Z) :
  0 <= h < 24 -> 0 <= m < 60 -> HourOf loc (time.Date day h m loc) = h.
Proof.
  intros Hh Hm. unfold HourOf. rewrite abs_Date.
  unfold secondsPerDay, secondsPerHour, secondsPerMinute.
  replace (day * (24 * (60 * 60)) + h * (60 * 60) + m * 60)
    with ((h * 3600 + m * 60) + day * 86400) by lia.
  change (24 * (60 * 60)) with 86400. change (60 * 60) with 3600.
  rewrite Z.mod_add by lia. rewrite Z.mod_small by lia.
  symmetry. apply (Z.div_unique _ _ _ (m * 60)); lia.
Qed.

Lemma MinuteOf_Date (loc : Location) (day h m : Z) :
  0 <= h < 24 -> 0 <= m < 60 -> MinuteOf loc (time.Date day h m loc) = m.
Proof.
  intros Hh Hm. unfold MinuteOf. rewrite abs_Date.
  unfold secondsPerDay, secondsPerHour, secondsPerMinute.
  replace (day * (24 * (60 * 60)) + h * (60 * 60) + m * 60)
    with (m * 60 + (day * 24 + h) * 3600) by lia.
  change (60 * 60) with 3600.
  rewrite Z.mod_add by lia. rewrite Z.mod_small by lia.
  apply Z.div_mul. lia.
Qed.

Lemma formatSlot_Date (loc : Location) (day h m h' m' : Z) :
  0 <= h < 24 -> 0 <= m < 60 -> 0 <= h' < 24 -> 0 <= m' < 60 ->
  formatSlot loc {| start := time.Date day h m loc;
                    end_ := time.Date day h' m' loc |}
  = (fmt.pad02d h ++ ":" ++ fmt.pad02d m ++ "~" ++
     fmt.pad02d h' ++ ":" ++ fmt.pad02d m')%string.
Proof.
  intros. unfold formatSlot. simpl start. simpl end_.
  rewrite !HourOf_Date, !MinuteOf_Date by assumption. reflexivity.
Qed.

(** ** Two meetings in a day *)

(** Settles the tests on instants that the facts at hand decide. *)
Ltac settle_tests :=
  repeat match goal with
         | |- context [After ?t ?u] =>
             first [ replace (After t u) with true
                       by (symmetry; apply After_lt; simpl; lia)
                   | replace (After t u) with false
                       by (symmetry; apply After_ge; simpl; lia) ]
         | |- context [Before ?t ?u] =>
             first [ replace (Before t u) with true
                       by (symmetry; apply Before_lt; simpl; lia)
                   | replace (Before t u) with false
                       by (symmetry; apply Before_ge; simpl; lia) ]
         end.

Lemma freeOfDay_two_meetings (t0 t1 t2 t3 t4 t5 : Time) :
  t0 < t1 -> t1 < t2 -> t2 < t3 -> t3 < t4 -> t4 < t5 ->
  freeOfDay t0 t5 [mkInterval t1 t2; mkInterval t3 t4]
  = [mkInterval t0 t1; mkInterval t2 t3; mkInterval t4 t5].
Proof.
  intros H01 H12 H23 H34 H45.
  rewrite freeOfDay_unfold, busyOfDay_unfold.
  assert (Hclip : clip {| start := t0; end_ := t5 |}
                    [mkInterval t1 t2; mkInterval t3 t4]
                  = [mkInterval t1 t2; mkInterval t3 t4]).
  { unfold clip, overlaps. simpl start. simpl end_. settle_tests.
    reflexivity. }
  rewrite Hclip, mergeIntervals_unfold, Slice_of_sorted.
  - rewrite mergeFrom_of_apart.
    + cbn [sweepFrom start end_]. settle_tests. reflexivity.
    + repeat constructor. unfold apart. simpl. lia.
  - repeat constructor. unfold leStart. simpl. lia.
Qed.

(** C1: with the day window 09:00-17:00 of a day, the busy intervals
    10:00-10:30 and 10:45-11:15 of that day and a minimum of thirty
    minutes, [findFreeSlots] returns ["09:00~10:00"; "11:15~17:00"], in
    this order; the quarter of an hour from 10:30 to 10:45 is left out.
    This holds on every day and in every location. *)
Theorem findFreeSlots_two_meetings (loc : Location) (day : Z) :
  let clock := fun h m => time.Date day h m loc in
  findFreeSlots loc (clock 9 0) (clock 17 0)
    [mkInterval (clock 10 0) (clock 10 30);
     mkInterval (clock 10 45) (clock 11 15)]
    (30 * Minute)
  = ["09:00~10:00"%string; "11:15~17:00"%string] /\
  freeOfDay (clock 9 0) (clock 17 0)
    [mkInterval (clock 10 0) (clock 10 30);
     mkInterval (clock 10 45) (clock 11 15)]
  = [mkInterval (clock 9 0) (clock 10 0);
     mkInterval (clock 10 30) (clock 10 45);
     mkInterval (clock 11 15) (clock 17 0)].
Proof.
  intros clock.
  assert (Hfree : freeOfDay (clock 9 0) (clock 17 0)
            [mkInterval (clock 10 0) (clock 10 30);
             mkInterval (clock 10 45) (clock 11 15)]
          = [mkInterval (clock 9 0) (clock 10 0);
             mkInterval (clock 10 30) (clock 10 45);
             mkInterval (clock 11 15) (clock 17 0)]).
  { apply freeOfDay_two_meetings; subst clock; unfold time.Date,
      secondsPerDay, secondsPerHour, secondsPerMinute, Second, Nanosecond; lia. }
  split; [| exact Hfree].
  assert (Hd : is_Duration (30 * Minute)) by (vm_compute; split; discriminate).
  rewrite findFreeSlots_unfold, Hfree.
  cbn [filter].
  rewrite !longEnough_iff; try exact Hd;
    try (subst clock; unfold wellFormed, time.Date, secondsPerDay,
         secondsPerHour, secondsPerMinute, Second, Nanosecond; simpl; lia).
  cbn [start end_].
  replace (30 * Minute <=? clock 10 0 - clock 9 0) with true.
  2: { symmetry. apply Z.leb_le. subst clock.
       unfold time.Date, secondsPerDay, secondsPerHour, secondsPerMinute,
         Minute, Second, Nanosecond. lia. }
  replace (30 * Minute <=? clock 10 45 - clock 10 30) with false.
  2: { symmetry. apply Z.leb_gt. subst clock.
       unfold time.Date, secondsPerDay, secondsPerHour, secondsPerMinute,
         Minute, Second, Nanosecond. lia. }
  replace (30 * Minute <=? clock 17 0 - clock 11 15) with true.
  2: { symmetry. apply Z.leb_le. subst clock.
       unfold time.Date, secondsPerDay, secondsPerHour, secondsPerMinute,
         Minute, Second, Nanosecond. lia. }
  subst clock. cbn [map]. rewrite !formatSlot_Date by lia. reflexivity.
Qed.

(** ** [eventsToIntervals] *)

Section EventFacts.
Variable parseRFC3339 : string -> option Time.
Variable parseDay : string -> Location -> option Time.
Variable loc : Location.

Local Abbreviation step := (eventStep parseRFC3339 parseDay loc).

(** The intervals an event adds to [busyAll]: none or one. *)
Lemma eventStep_app (busyAll : list interval) (e : calendar.Event) :
  step busyAll e = busyAll ++ step [] e.
Proof.
  unfold eventStep.
  destruct (strings.EqualFold (calendar.Status e) "canceled");
    [symmetry; apply app_nil_r |].
  destruct (strings.EqualFold (calendar.Transparency e) "transparent");
    [symmetry; apply app_nil_r |].
  destruct (parseEventTime parseRFC3339 parseDay e loc) as [[s en] ok].
  destruct (negb ok); [symmetry; apply app_nil_r |].
  destruct (negb (After en s)); [symmetry; apply app_nil_r |].
  reflexivity.
Qed.

Lemma eventStep_fold (events : list calendar.Event) : forall busyAll,
  fold_left step events busyAll = busyAll ++ fold_left step events [].
Proof.
  induction events as [| e events IH]; intros busyAll; simpl.
  - symmetry. apply app_nil_r.
  - rewrite (IH (step busyAll e)), (IH (step [] e)).
    rewrite (eventStep_app busyAll e), app_assoc. reflexivity.
Qed.

Lemma eventsToIntervals_cons (e : calendar.Event) (events : list calendar.Event) :
  eventsToIntervals parseRFC3339 parseDay (e :: events) loc
  = step [] e ++ eventsToIntervals parseRFC3339 parseDay events loc.
Proof.
  unfold eventsToIntervals. simpl. apply eventStep_fold.
Qed.

(** An event whose status folds to ["canceled"] adds nothing. *)
Lemma eventStep_canceled (e : calendar.Event) :
  strings.EqualFold (calendar.Status e) "canceled" = true ->
  step [] e = [].
Proof. intros H. unfold eventStep. rewrite H. reflexivity. Qed.

(** An event whose transparency folds to ["transparent"] adds nothing. *)
Lemma eventStep_transparent (e : calendar.Event) :
  strings.EqualFold (calendar.Transparency e) "transparent" = true ->
  step [] e = [].
Proof.
  intros H. unfold eventStep. rewrite H.
  destruct (strings.EqualFold (calendar.Status e) "canceled"); reflexivity.
Qed.

(** Any other event whose times parse and which ends after it starts
    adds its interval. *)
Lemma eventStep_kept (e : calendar.Event) (s en : Time) :
  strings.EqualFold (calendar.Status e) "canceled" = false ->
  strings.EqualFold (calendar.Transparency e) "transparent" = false ->
  parseEventTime parseRFC3339 parseDay e loc = (s, en, true) ->
  s < en ->
  step [] e = [{| start := s; end_ := en |}].
Proof.
  intros Hc Ht Hp Hlt. unfold eventStep. rewrite Hc, Ht, Hp.
  replace (After en s) with true by (symmetry; apply After_lt; exact Hlt).
  reflexivity.
Qed.

(** No interval comes from an event that is skipped, and every
    interval that comes out is well formed. *)
Lemma eventsToIntervals_skips (events : list calendar.Event) (x : interval) :
  In x (eventsToIntervals parseRFC3339 parseDay events loc) ->
  wellFormed x /\
  exists e, In e events /\
    strings.EqualFold (calendar.Status e) "canceled" = false /\
    strings.EqualFold (calendar.Transparency e) "transparent" = false /\
    parseEventTime parseRFC3339 parseDay e loc = (start x, end_ x, true).
Proof.
  induction events as [| e events IH]; intros Hx.
  - destruct Hx.
  - rewrite eventsToIntervals_cons in Hx. apply in_app_or in Hx.
    destruct Hx as [Hx | Hx].
    + unfold eventStep in Hx.
      destruct (strings.EqualFold (calendar.Status e) "canceled") eqn:Hc;
        [destruct Hx |].
      destruct (strings.EqualFold (calendar.Transparency e) "transparent")
        eqn:Ht; [destruct Hx |].
      destruct (parseEventTime parseRFC3339 parseDay e loc)
        as [[s en] ok] eqn:Hp.
      destruct ok; simpl in Hx; [| destruct Hx].
      destruct (After en s) eqn:Ha; simpl in Hx; [| destruct Hx].
      destruct Hx as [<- | []]. apply After_lt in Ha. split; [exact Ha |].
      exists e. simpl. auto.
    + destruct (IH Hx) as (Hwf & e' & He' & H).
      split; [exact Hwf |]. exists e'. split; [right; exact He' | exact H].
Qed.

End EventFacts.

(** The status the newer loop tests for is not the one the older loop
    of [main] tested for. *)
Lemma cancelled_is_not_canceled :
  strings.EqualFold "cancelled" "canceled" = false /\
  strings.EqualFold "cancelled" "cancelled" = true /\
  strings.EqualFold "canceled" "canceled" = true.
Proof. repeat split. Qed.

(** C8, at the failing input: an event with the status "cancelled", two
    times that parse and a positive length is not skipped by
    [eventsToIntervals]; its interval is in the busy list. *)
Theorem cancelled_event_is_busy
        (parseRFC3339 : string -> option Time)
        (parseDay : string -> Location -> option Time)
        (loc : Location) (from to : string) (s en : Time) :
  nonEmpty from = true -> nonEmpty to = true ->
  parseRFC3339 from = Some s -> parseRFC3339 to = Some en ->
  s < en ->
  eventsToIntervals parseRFC3339 parseDay
    [calendar.mkEvent "cancelled" "opaque"
       (Some (calendar.mkEventDateTime "" from))
       (Some (calendar.mkEventDateTime "" to))] loc
  = [{| start := s; end_ := en |}].
Proof.
  intros Hf Ht Hs He Hlt.
  rewrite eventsToIntervals_cons. unfold eventsToIntervals. simpl fold_left.
  rewrite app_nil_r. apply eventStep_kept; try reflexivity; [| exact Hlt].
  unfold parseEventTime. simpl. rewrite Hf, Ht, Hs, He. reflexivity.
Qed.

Lemma cancelled_event_is_busy_witness :
  let loc := 32400 in
  let ten := time.Date 739263 10 0 loc in
  let eleven := time.Date 739263 11 0 loc in
  let parse := fun s : string =>
    if String.eqb s "2025-01-13T10:00:00+09:00" then Some ten
    else if String.eqb s "2025-01-13T11:00:00+09:00" then Some eleven
    else None in
  eventsToIntervals parse (fun _ _ => None)
    [calendar.mkEvent "cancelled" "opaque"
       (Some (calendar.mkEventDateTime "" "2025-01-13T10:00:00+09:00"))
       (Some (calendar.mkEventDateTime "" "2025-01-13T11:00:00+09:00"))] loc
  = [mkInterval ten eleven].
Proof.
  cbv zeta.
  apply (cancelled_event_is_busy _ (fun _ _ => None) 32400
           "2025-01-13T10:00:00+09:00" "2025-01-13T11:00:00+09:00");
    reflexivity.
Defined.

(** ** The order [sort.Slice] leaves ties in does not matter *)

(** [sort.Slice] is not stable.  On well-formed intervals the loop of
    [mergeIntervals] gives the same slice for every arrangement of the
    input that is sorted by start, so that the result does not depend on
    the sorting algorithm. *)

Lemma pairwise_In (R : interval -> interval -> Prop) l p q :
  pairwise R l -> In p l -> In q l -> p = q \/ R p q \/ R q p.
Proof.
  unfold pairwise. induction 1 as [| x l Hl IH Hx]; intros Hp Hq.
  - destruct Hp.
  - rewrite Forall_forall in Hx.
    destruct Hp as [<- | Hp], Hq as [<- | Hq]; auto.
Qed.

(** In a family of intervals any two of which are equal or apart, two
    well-formed intervals that share an instant or touch lie in the same
    member. *)
Lemma mergeFrom_covered (P : interval -> Prop) rest : forall last,
  (forall p q, P p -> P q -> p = q \/ apart p q \/ apart q p) ->
  wellFormed last -> Forall wellFormed rest ->
  Forall (leStart last) rest -> StronglySorted leStart rest ->
  (forall x, In x (last :: rest) -> exists p, P p /\ covers p x) ->
  forall o, In o (mergeFrom last rest) -> exists p, P p /\ covers p o.
Proof.
  induction rest as [| cur rest IH]; intros last HP Hwl Hwr Hl Hs Hcov o Ho.
  - destruct Ho as [<- | []]. apply Hcov. left. reflexivity.
  - inversion Hwr as [| ? ? Hwc Hwr']; subst.
    inversion Hl as [| ? ? Hlc Hlr]; subst.
    inversion Hs as [| ? ? Hs' Hc]; subst.
    unfold leStart in Hlc. unfold wellFormed in Hwl, Hwc.
    simpl mergeFrom in Ho.
    destruct (After (start cur) (end_ last)) eqn:E1.
    + destruct Ho as [<- | Ho].
      * apply Hcov. left. reflexivity.
      * apply (IH cur); try assumption.
        intros x Hx. apply Hcov. right. exact Hx.
    + apply After_ge in E1.
      destruct (After (end_ cur) (end_ last)) eqn:E2.
      * apply After_lt in E2.
        apply (IH {| start := start last; end_ := end_ cur |});
          try assumption.
        -- unfold wellFormed. simpl. lia.
        -- intros x [<- | Hx]; [| apply Hcov; right; right; exact Hx].
           destruct (Hcov last (or_introl eq_refl)) as (p1 & Hp1 & Hc1).
           destruct (Hcov cur (or_intror (or_introl eq_refl)))
             as (p2 & Hp2 & Hc2).
           unfold covers in *. simpl.
           destruct (HP p1 p2 Hp1 Hp2) as [-> | [Hap | Hap]];
             unfold apart in *; [| lia | lia].
           exists p2. split; [exact Hp2 | lia].
      * apply (IH last); try assumption.
        intros x [<- | Hx]; apply Hcov; [left | right; right]; auto.
Qed.

Lemma mergeSorted_covers (l : list interval) x :
  StronglySorted leStart l -> In x l ->
  exists o, In o (mergeSorted l) /\ covers o x.
Proof.
  intros Hs Hx. destruct l as [| f r]; [destruct Hx |].
  apply sorted_head in Hs. destruct Hs as [Hf Hr].
  apply mergeFrom_covers; assumption.
Qed.

Lemma mergeSorted_canonical (l : list interval) :
  Forall wellFormed l -> StronglySorted leStart l ->
  Forall wellFormed (mergeSorted l) /\ pairwise apart (mergeSorted l).
Proof.
  intros Hwf Hs. destruct l as [| f r]; simpl.
  - split; constructor.
  - apply sorted_head in Hs. destruct Hs as [Hf Hr]. inversion Hwf; subst.
    split; [apply mergeFrom_wellFormed | apply mergeFrom_apart]; assumption.
Qed.

(** Every interval of one result is an interval of the other. *)
Lemma mergeSorted_incl (l1 l2 : list interval) :
  Forall wellFormed l1 -> Permutation l1 l2 ->
  StronglySorted leStart l1 -> StronglySorted leStart l2 ->
  forall o, In o (mergeSorted l1) -> In o (mergeSorted l2).
Proof.
  intros Hwf1 Hperm Hs1 Hs2 o Ho.
  assert (Hwf2 : Forall wellFormed l2)
    by (eapply Permutation_Forall; eassumption).
  destruct (mergeSorted_canonical l1 Hwf1 Hs1) as [Hw1 Hap1].
  destruct (mergeSorted_canonical l2 Hwf2 Hs2) as [Hw2 Hap2].
  assert (H12 : exists p, In p (mergeSorted l2) /\ covers p o).
  { destruct l1 as [| f r]; [destruct Ho |].
    apply sorted_head in Hs1. destruct Hs1 as [Hf Hr]. inversion Hwf1; subst.
    apply (mergeFrom_covered (fun p => In p (mergeSorted l2)) r f);
      try assumption.
    - intros p q. apply pairwise_In. exact Hap2.
    - intros x Hx. apply mergeSorted_covers; [exact Hs2 |].
      eapply Permutation_in; eassumption. }
  destruct H12 as (p & Hp & Hpo).
  assert (H21 : exists o', In o' (mergeSorted l1) /\ covers o' p).
  { destruct l2 as [| f r]; [destruct Hp |].
    apply sorted_head in Hs2. destruct Hs2 as [Hf Hr]. inversion Hwf2; subst.
    apply (mergeFrom_covered (fun p => In p (mergeSorted l1)) r f);
      try assumption.
    - intros p' q. apply pairwise_In. exact Hap1.
    - intros x Hx. apply mergeSorted_covers; [exact Hs1 |].
      eapply Permutation_in; [apply Permutation_sym |]; eassumption. }
  destruct H21 as (o' & Ho' & Ho'p).
  rewrite Forall_forall in Hw1, Hw2.
  pose proof (Hw1 o Ho) as Hwo. pose proof (Hw1 o' Ho') as Hwo'.
  unfold covers, wellFormed in *.
  destruct (pairwise_In apart _ o o' Hap1 Ho Ho') as [<- | [Hap | Hap]].
  - replace o with p; [exact Hp |]. apply interval_eq; lia.
  - unfold apart in Hap. lia.
  - unfold apart in Hap. lia.
Qed.

(** Two slices with strictly increasing starts and the same elements are
    the same slice. *)
Lemma ascending_unique (l1 : list interval) : forall l2,
  pairwise ltStart l1 -> pairwise ltStart l2 ->
  (forall x, In x l1 <-> In x l2) -> l1 = l2.
Proof.
  unfold pairwise, ltStart.
  induction l1 as [| h1 t1 IH]; intros [| h2 t2] H1 H2 Hin.
  - reflexivity.
  - destruct (proj2 (Hin h2) (or_introl eq_refl)).
  - destruct (proj1 (Hin h1) (or_introl eq_refl)).
  - inversion H1 as [| ? ? Hs1 Hf1]; subst.
    inversion H2 as [| ? ? Hs2 Hf2]; subst.
    rewrite Forall_forall in Hf1, Hf2.
    assert (E : h1 = h2).
    { destruct (proj1 (Hin h1) (or_introl eq_refl)) as [E | Hh1]; [auto |].
      destruct (proj2 (Hin h2) (or_introl eq_refl)) as [E | Hh2]; [auto |].
      specialize (Hf2 h1 Hh1). specialize (Hf1 h2 Hh2). lia. }
    subst h2. f_equal. apply IH; try assumption.
    intros x. split; intros Hx.
    + destruct (proj1 (Hin x) (or_intror Hx)) as [<- | Hx']; [| exact Hx'].
      specialize (Hf1 h1 Hx). lia.
    + destruct (proj2 (Hin x) (or_intror Hx)) as [<- | Hx']; [| exact Hx'].
      specialize (Hf2 h1 Hx). lia.
Qed.

Lemma mergeSorted_any_order (l1 l2 : list interval) :
  Forall wellFormed l1 -> Permutation l1 l2 ->
  StronglySorted leStart l1 -> StronglySorted leStart l2 ->
  mergeSorted l1 = mergeSorted l2.
Proof.
  intros Hwf1 Hperm Hs1 Hs2.
  assert (Hwf2 : Forall wellFormed l2)
    by (eapply Permutation_Forall; eassumption).
  destruct (mergeSorted_canonical l1 Hwf1 Hs1) as [Hw1 Hap1].
  destruct (mergeSorted_canonical l2 Hwf2 Hs2) as [Hw2 Hap2].
  apply ascending_unique.
  - apply apart_ltStart; assumption.
  - apply apart_ltStart; assumption.
  - intros x. split; apply mergeSorted_incl; try assumption.
    apply Permutation_sym. exact Hperm.
Qed.

(** [mergeIntervals] on well-formed intervals is the loop run on any
    sorted arrangement of its input. *)
Lemma mergeIntervals_any_sort (xs sorted : list interval) :
  Forall wellFormed xs -> Permutation xs sorted ->
  StronglySorted leStart sorted ->
  mergeIntervals xs = mergeSorted sorted.
Proof.
  intros Hwf Hperm Hs.
  rewrite mergeIntervals_unfold.
  change (mergeSorted (sort.Slice lessStart xs) = mergeSorted sorted).
  apply mergeSorted_any_order.
  - apply Slice_Forall. exact Hwf.
  - apply perm_trans with xs; [apply Slice_perm | exact Hperm].
  - apply Slice_sorted.
  - exact Hs.
Qed.

(** ** The tables of the repository's tests *)

Section Tests.
(** 2025-01-13 in Asia/Tokyo, the day and the location of the tests. *)
Local Abbreviation at_ h m := (time.Date 739263 h m 32400).

Example test_overlaps_complete :
  overlaps (mkInterval (at_ 9 0) (at_ 12 0)) (mkInterval (at_ 10 0) (at_ 11 0))
  = (mkInterval (at_ 10 0) (at_ 11 0), true).
Proof. reflexivity. Qed.

Example test_overlaps_partial :
  overlaps (mkInterval (at_ 9 0) (at_ 11 0)) (mkInterval (at_ 10 0) (at_ 12 0))
  = (mkInterval (at_ 10 0) (at_ 11 0), true).
Proof. reflexivity. Qed.

Example test_overlaps_adjacent :
  snd (overlaps (mkInterval (at_ 9 0) (at_ 10 0))
                (mkInterval (at_ 10 0) (at_ 11 0))) = false.
Proof. reflexivity. Qed.

Example test_merge_adjacent :
  mergeIntervals [mkInterval (at_ 9 0) (at_ 10 0);
                  mkInterval (at_ 10 0) (at_ 11 0)]
  = [mkInterval (at_ 9 0) (at_ 11 0)].
Proof. reflexivity. Qed.

Example test_merge_multiple :
  mergeIntervals [mkInterval (at_ 9 0) (at_ 10 30);
                  mkInterval (at_ 10 0) (at_ 11 0);
                  mkInterval (at_ 10 45) (at_ 12 0)]
  = [mkInterval (at_ 9 0) (at_ 12 0)].
Proof. reflexivity. Qed.

Example test_merge_unsorted :
  mergeIntervals [mkInterval (at_ 11 0) (at_ 12 0);
                  mkInterval (at_ 9 0) (at_ 10 0);
                  mkInterval (at_ 14 0) (at_ 15 0)]
  = [mkInterval (at_ 9 0) (at_ 10 0);
     mkInterval (at_ 11 0) (at_ 12 0);
     mkInterval (at_ 14 0) (at_ 15 0)].
Proof. reflexivity. Qed.

Example test_merge_contained :
  mergeIntervals [mkInterval (at_ 9 0) (at_ 12 0);
                  mkInterval (at_ 10 0) (at_ 11 0)]
  = [mkInterval (at_ 9 0) (at_ 12 0)].
Proof. reflexivity. Qed.

Example free_day_without_meetings :
  findFreeSlots 32400 (at_ 9 0) (at_ 17 0) [] (60 * Minute)
  = ["09:00~17:00"%string].
Proof. reflexivity. Qed.
End Tests.

(** * Further properties of the code *)

(** ** [overlaps] as an intersection *)

(** X1: an instant lies in both [a] and [b] exactly when [overlaps a b]
    reports an overlap and the instant lies in the interval it returns. *)
Theorem overlaps_contains (a b : interval) (t : Time) :
  (contains a t /\ contains b t) <->
  (snd (overlaps a b) = true /\ contains (fst (overlaps a b)) t).
Proof.
  rewrite overlaps_unfold. unfold contains.
  destruct (Z.ltb_spec (Z.max (start a) (start b)) (Z.min (end_ a) (end_ b)));
    simpl; split; intros Ht; try lia;
    try (split; [reflexivity | lia]); destruct Ht; discriminate.
Qed.

(** X2: the interval [overlaps a b] returns with [true] is well formed
    and lies inside both [a] and [b]; and every well-formed interval that
    lies inside both makes [overlaps a b] return [true] with an interval
    that covers it. *)
Theorem overlaps_greatest (a b : interval) :
  (snd (overlaps a b) = true ->
   wellFormed (fst (overlaps a b)) /\
   covers a (fst (overlaps a b)) /\ covers b (fst (overlaps a b))) /\
  (forall c, wellFormed c -> covers a c -> covers b c ->
             snd (overlaps a b) = true /\ covers (fst (overlaps a b)) c).
Proof.
  rewrite overlaps_unfold. unfold wellFormed, covers.
  destruct (Z.ltb_spec (Z.max (start a) (start b)) (Z.min (end_ a) (end_ b)));
    simpl; split; intros; try discriminate; try lia;
    try (split; [reflexivity | lia]).
Qed.

(** ** [mergeIntervals] keeps the busy time *)

Lemma mergeFrom_instants (Q : Time -> Prop) rest : forall last,
  (forall t, contains last t -> Q t) ->
  (forall x, In x rest -> forall t, contains x t -> Q t) ->
  forall o, In o (mergeFrom last rest) -> forall t, contains o t -> Q t.
Proof.
  induction rest as [| cur rest IH]; intros last Hl Hr o Ho t Ht.
  - destruct Ho as [<- | []]. apply Hl, Ht.
  - simpl in Ho.
    assert (Hrest : forall x, In x rest -> forall t, contains x t -> Q t).
    { intros x Hx. apply Hr. right. exact Hx. }
    assert (Hcur : forall t, contains cur t -> Q t).
    { apply Hr. left. reflexivity. }
    destruct (After (start cur) (end_ last)) eqn:E1.
    + destruct Ho as [<- | Ho]; [apply Hl, Ht |].
      apply (IH cur Hcur Hrest o Ho t Ht).
    + apply After_ge in E1.
      destruct (After (end_ cur) (end_ last)) eqn:E2.
      * refine (IH {| start := start last; end_ := end_ cur |}
                  _ Hrest o Ho t Ht).
        unfold contains. simpl. intros u Hu.
        destruct (Z.lt_ge_cases u (end_ last)).
        -- apply Hl. unfold contains. lia.
        -- apply Hcur. unfold contains. lia.
      * apply (IH last Hl Hrest o Ho t Ht).
Qed.

(** X3: [mergeIntervals] neither loses nor invents busy time: an instant
    lies in one of the intervals it returns exactly when it lies in one
    of the intervals it was given. *)
Theorem mergeIntervals_same_instants (xs : list interval) (t : Time) :
  (exists o, In o (mergeIntervals xs) /\ contains o t) <->
  (exists x, In x xs /\ contains x t).
Proof.
  split.
  - intros (o & Ho & Ht). revert o Ho t Ht.
    rewrite mergeIntervals_unfold.
    destruct (sort.Slice lessStart xs) as [| f r] eqn:E;
      [intros o [] |].
    apply mergeFrom_instants.
    + intros t Ht. exists f. split; [| exact Ht].
      apply (Slice_In lessStart). rewrite E. left. reflexivity.
    + intros x Hx t Ht. exists x. split; [| exact Ht].
      apply (Slice_In lessStart). rewrite E. right. exact Hx.
  - intros (x & Hx & Ht).
    destruct (mergeIntervals_covers xs x Hx) as (o & Ho & Hc).
    exists o. split; [exact Ho |]. unfold covers, contains in *. lia.
Qed.

(** ** [mergeIntervals] and the order of its input *)

Lemma mergeIntervals_mergeSorted (xs : list interval) :
  mergeIntervals xs = mergeSorted (sort.Slice lessStart xs).
Proof. apply mergeIntervals_unfold. Qed.

(** X4: on well-formed intervals the result of [mergeIntervals] does not
    depend on the order the intervals are given in. *)
Theorem mergeIntervals_permutation (xs ys : list interval) :
  Forall wellFormed xs -> Permutation xs ys ->
  mergeIntervals xs = mergeIntervals ys.
Proof.
  intros Hwf Hperm. rewrite (mergeIntervals_mergeSorted ys).
  apply mergeIntervals_any_sort.
  - exact Hwf.
  - apply perm_trans with ys; [exact Hperm |].
    apply Permutation_sym, Slice_perm.
  - apply Slice_sorted.
Qed.

Lemma mergeIntervals_permutation_witness :
  let xs := [mkInterval 11 12; mkInterval 9 10; mkInterval 9 11] in
  let ys := [mkInterval 9 11; mkInterval 11 12; mkInterval 9 10] in
  Forall wellFormed xs /\ Permutation xs ys /\
  mergeIntervals xs = mergeIntervals ys.
Proof.
  assert (Hwf : Forall wellFormed
                  [mkInterval 11 12; mkInterval 9 10; mkInterval 9 11])
    by (repeat constructor).
  assert (Hp : Permutation
                 [mkInterval 11 12; mkInterval 9 10; mkInterval 9 11]
                 [mkInterval 9 11; mkInterval 11 12; mkInterval 9 10]).
  { apply perm_trans with
      [mkInterval 11 12; mkInterval 9 11; mkInterval 9 10].
    - apply perm_skip, perm_swap.
    - apply perm_swap. }
  split; [exact Hwf |]. split; [exact Hp |].
  exact (mergeIntervals_permutation _ _ Hwf Hp).
Defined.

(** X5: the slices [mergeIntervals] returns unchanged are exactly those
    that are sorted by start with every interval ending strictly before
    each later one starts. *)
Theorem mergeIntervals_fixed_points (l : list interval) :
  mergeIntervals l = l <-> (StronglySorted leStart l /\ pairwise apart l).
Proof.
  split.
  - intros E. rewrite <- E. apply mergeIntervals_sorted_apart.
  - intros [Hs Hap]. rewrite mergeIntervals_unfold, (Slice_of_sorted _ Hs).
    destruct l as [| o tl]; [reflexivity |].
    apply mergeFrom_of_apart. exact Hap.
Qed.

Lemma mergeFrom_length rest : forall last,
  (1 <= List.length (mergeFrom last rest) <= S (List.length rest))%nat.
Proof.
  induction rest as [| cur rest IH]; intros last; simpl.
  - lia.
  - destruct (After (start cur) (end_ last)).
    + specialize (IH cur). simpl. lia.
    + destruct (After (end_ cur) (end_ last)).
      * specialize (IH {| start := start last; end_ := end_ cur |}). lia.
      * specialize (IH last). lia.
Qed.

(** X6: [mergeIntervals] never returns more intervals than it was given,
    and it returns the empty slice only for the empty slice. *)
Theorem mergeIntervals_length (xs : list interval) :
  (List.length (mergeIntervals xs) <= List.length xs)%nat /\
  (mergeIntervals xs = [] <-> xs = []).
Proof.
  rewrite mergeIntervals_unfold.
  pose proof (Permutation_length (Slice_perm lessStart xs)) as Hlen.
  pose proof (Slice_nil lessStart xs) as Hnil.
  destruct (sort.Slice lessStart xs) as [| f r].
  - split; [simpl; lia | tauto].
  - pose proof (mergeFrom_length r f) as H. simpl in Hlen. split; [lia |].
    split; intros E.
    + rewrite E in H. simpl in H. lia.
    + apply Hnil in E. discriminate.
Qed.

Lemma mergeFrom_endpoints rest : forall last o,
  In o (mergeFrom last rest) ->
  (exists x, In x (last :: rest) /\ start x = start o) /\
  (exists y, In y (last :: rest) /\ end_ y = end_ o).
Proof.
  induction rest as [| cur rest IH]; intros last o Ho.
  - destruct Ho as [<- | []]. split; exists last; split; auto; left; auto.
  - simpl in Ho.
    assert (Hshift : forall l' : interval,
      (start l' = start last \/ start l' = start cur) ->
      (end_ l' = end_ last \/ end_ l' = end_ cur) ->
      In o (mergeFrom l' rest) ->
      (exists x, In x (last :: cur :: rest) /\ start x = start o) /\
      (exists y, In y (last :: cur :: rest) /\ end_ y = end_ o)).
    { intros l' Hs He Hin. destruct (IH l' o Hin) as [(x & Hx & Ex) (y & Hy & Ey)].
      split.
      - destruct Hx as [<- | Hx].
        + destruct Hs as [Hs | Hs]; [exists last | exists cur];
            split; simpl; auto; lia.
        + exists x. split; [right; right; exact Hx | exact Ex].
      - destruct Hy as [<- | Hy].
        + destruct He as [He | He]; [exists last | exists cur];
            split; simpl; auto; lia.
        + exists y. split; [right; right; exact Hy | exact Ey]. }
    destruct (After (start cur) (end_ last)).
    + destruct Ho as [<- | Ho].
      * split; exists last; split; auto; left; auto.
      * apply (Hshift cur); auto.
    + destruct (After (end_ cur) (end_ last)).
      * apply (Hshift {| start := start last; end_ := end_ cur |}); simpl; auto.
      * apply (Hshift last); auto.
Qed.

(** X7: [mergeIntervals] invents no boundary: every interval it returns
    starts where an interval of the input starts and ends where an
    interval of the input ends. *)
Theorem mergeIntervals_endpoints (xs : list interval) (o : interval) :
  In o (mergeIntervals xs) ->
  (exists x, In x xs /\ start x = start o) /\
  (exists y, In y xs /\ end_ y = end_ o).
Proof.
  rewrite mergeIntervals_unfold.
  destruct (sort.Slice lessStart xs) as [| f r] eqn:E; [intros [] |].
  intros Ho. destruct (mergeFrom_endpoints r f o Ho) as [(x & Hx & Ex) (y & Hy & Ey)].
  rewrite <- E in Hx. rewrite <- E in Hy.
  apply (proj1 (Slice_In lessStart xs x)) in Hx.
  apply (proj1 (Slice_In lessStart xs y)) in Hy.
  split; [exists x | exists y]; split; assumption.
Qed.

Lemma mergeIntervals_endpoints_witness :
  let xs := [mkInterval 10 12; mkInterval 9 11] in
  In (mkInterval 9 12) (mergeIntervals xs) /\
  (exists x, In x xs /\ start x = 9) /\
  (exists y, In y xs /\ end_ y = 12).
Proof.
  assert (H : In (mkInterval 9 12)
                 (mergeIntervals [mkInterval 10 12; mkInterval 9 11]))
    by (left; reflexivity).
  split; [exact H |].
  exact (mergeIntervals_endpoints _ _ H).
Defined.

(** ** The free intervals of a day *)

Lemma clip_origin dayWin busyAll x :
  In x (clip dayWin busyAll) ->
  exists ev, In ev busyAll /\ overlaps ev dayWin = (x, true).
Proof.
  induction busyAll as [| ev rest IH]; simpl; intros Hx.
  - destruct Hx.
  - destruct (overlaps ev dayWin) as [inter [|]] eqn:E.
    + destruct Hx as [<- | Hx].
      * exists ev. split; [left; reflexivity | exact E].
      * destruct (IH Hx) as (ev' & Hin & E'). exists ev'.
        split; [right; exact Hin | exact E'].
    + destruct (IH Hx) as (ev' & Hin & E'). exists ev'.
      split; [right; exact Hin | exact E'].
Qed.

(** An instant of a merged busy interval of the day is an instant of a
    busy interval of the input. *)
Lemma busyOfDay_origin dayStart dayEnd busyAll b t :
  In b (busyOfDay dayStart dayEnd busyAll) -> contains b t ->
  exists ev, In ev busyAll /\ contains ev t.
Proof.
  rewrite busyOfDay_unfold, mergeIntervals_unfold.
  set (c := clip _ busyAll).
  assert (Hc : forall x, In x c -> forall u, contains x u ->
                 exists ev, In ev busyAll /\ contains ev u).
  { intros x Hx u Hu. destruct (clip_origin _ _ _ Hx) as (ev & Hev & E).
    exists ev. split; [exact Hev |].
    rewrite overlaps_unfold in E. simpl in E.
    destruct (Z.ltb_spec (Z.max (start ev) dayStart) (Z.min (end_ ev) dayEnd));
      [| discriminate].
    inversion E; subst x. unfold contains in *. simpl in Hu. lia. }
  destruct (sort.Slice lessStart c) as [| f r] eqn:E; [intros [] |].
  intros Hb Ht. revert b Hb t Ht. apply mergeFrom_instants.
  - apply Hc. apply (Slice_In lessStart). rewrite E. left. reflexivity.
  - intros x Hx. apply Hc. apply (Slice_In lessStart). rewrite E.
    right. exact Hx.
Qed.

(** From the cursor to the end of the day, the sweep leaves no instant
    out: each one is in an interval it emits or in a busy interval. *)
Lemma sweepFrom_covers dayEnd busy : forall cursor t,
  cursor <= t < dayEnd ->
  (exists f, In f (sweepFrom cursor busy dayEnd) /\ contains f t) \/
  (exists b, In b busy /\ contains b t).
Proof.
  induction busy as [| b busy IH]; intros cursor t Ht; simpl.
  - left. replace (Before cursor dayEnd) with true
      by (symmetry; apply Before_lt; lia).
    exists {| start := cursor; end_ := dayEnd |}.
    split; [left; reflexivity | exact Ht].
  - set (cursor' := if After (end_ b) cursor then end_ b else cursor).
    destruct (Z.lt_ge_cases t cursor') as [Hlt | Hge].
    + assert (Hend : t < end_ b).
      { subst cursor'. destruct (After (end_ b) cursor); lia. }
      destruct (Z.lt_ge_cases t (start b)) as [Hs | Hs].
      * left. replace (After (start b) cursor) with true
          by (symmetry; apply After_lt; lia).
        exists {| start := cursor; end_ := start b |}.
        split; [left; reflexivity | unfold contains; simpl; lia].
      * right. exists b. split; [left; reflexivity | unfold contains; lia].
    + destruct (IH cursor' t (conj Hge (proj2 Ht)))
        as [(f & Hf & Hc) | (b' & Hb' & Hc)].
      * left. exists f. split; [| exact Hc].
        destruct (After (start b) cursor); [right |]; exact Hf.
      * right. exists b'. split; [right; exact Hb' | exact Hc].
Qed.

(** What is known of a free interval of the day. *)
Lemma freeOfDay_member dayStart dayEnd busyAll f :
  In f (freeOfDay dayStart dayEnd busyAll) ->
  within dayStart dayEnd f /\ wellFormed f /\
  forall ev, In ev busyAll -> snd (overlaps f ev) = false.
Proof.
  rewrite freeOfDay_unfold. intros Hf.
  pose proof (busyOfDay_inside dayStart dayEnd busyAll) as Hbusy.
  assert (Hap : pairwise apart (busyOfDay dayStart dayEnd busyAll)).
  { rewrite busyOfDay_unfold. apply mergeIntervals_sorted_apart. }
  destruct (sweepFrom_gaps dayEnd _ dayStart Hbusy Hap) as [Hgaps _].
  destruct (Hgaps f Hf) as (H1 & H2 & H3).
  pose proof (sweepFrom_wellFormed dayEnd
                (busyOfDay dayStart dayEnd busyAll) dayStart) as Hwf.
  rewrite Forall_forall in Hwf. specialize (Hwf f Hf).
  assert (Hin : within dayStart dayEnd f) by (split; assumption).
  repeat split; try assumption.
  intros ev Hev. apply (free_of_input dayStart dayEnd busyAll); assumption.
Qed.

(** X8: the free intervals and the busy intervals share the day window
    between them: every instant of the window lies in a free interval of
    the day or in a busy interval of the input, and never in both. *)
Theorem free_or_busy (dayStart dayEnd : Time) (busyAll : list interval)
                     (t : Time) :
  dayStart <= t < dayEnd ->
  ((exists f, In f (freeOfDay dayStart dayEnd busyAll) /\ contains f t) \/
   (exists ev, In ev busyAll /\ contains ev t)) /\
  ~ ((exists f, In f (freeOfDay dayStart dayEnd busyAll) /\ contains f t) /\
     (exists ev, In ev busyAll /\ contains ev t)).
Proof.
  intros Ht. split.
  - rewrite freeOfDay_unfold.
    destruct (sweepFrom_covers dayEnd (busyOfDay dayStart dayEnd busyAll)
                dayStart t Ht) as [Hfree | (b & Hb & Hc)].
    + left. exact Hfree.
    + right. apply (busyOfDay_origin dayStart dayEnd busyAll b t Hb Hc).
  - intros [(f & Hf & Hft) (ev & Hev & Hevt)].
    destruct (freeOfDay_member _ _ _ _ Hf) as (_ & _ & Hno).
    specialize (Hno ev Hev). apply overlaps_not_found in Hno.
    unfold contains in *. lia.
Qed.

Lemma free_or_busy_witness :
  let busy := [mkInterval 10 12; mkInterval 14 16] in
  freeOfDay 9 17 busy = [mkInterval 9 10; mkInterval 12 14; mkInterval 16 17] /\
  ((exists f, In f (freeOfDay 9 17 busy) /\ contains f 13) \/
   (exists ev, In ev busy /\ contains ev 13)).
Proof.
  split; [reflexivity |].
  apply (free_or_busy 9 17 [mkInterval 10 12; mkInterval 14 16] 13). lia.
Defined.

Lemma clip_perm dayWin (l l' : list interval) :
  Permutation l l' -> Permutation (clip dayWin l) (clip dayWin l').
Proof.
  induction 1 as [| x l l' Hp IH | x y l | l l' l'' H1 IH1 H2 IH2]; simpl.
  - constructor.
  - destruct (overlaps x dayWin) as [i [|]]; [apply perm_skip |]; exact IH.
  - destruct (overlaps x dayWin) as [i [|]], (overlaps y dayWin) as [j [|]];
      try apply Permutation_refl. apply perm_swap.
  - eapply perm_trans; eassumption.
Qed.

Lemma clip_wellFormed dayStart dayEnd busyAll :
  Forall wellFormed (clip {| start := dayStart; end_ := dayEnd |} busyAll).
Proof.
  pose proof (clip_inside dayStart dayEnd busyAll) as H.
  revert H. apply Forall_impl. tauto.
Qed.

(** X9: the order in which the busy intervals come, well formed or not,
    has no effect on the free intervals of a day nor on the slots
    [findFreeSlots] returns. *)
Theorem findFreeSlots_permutation
        (loc : Location) (dayStart dayEnd : Time)
        (busyAll busyAll' : list interval) (minDur : Duration) :
  Permutation busyAll busyAll' ->
  freeOfDay dayStart dayEnd busyAll = freeOfDay dayStart dayEnd busyAll' /\
  findFreeSlots loc dayStart dayEnd busyAll minDur
  = findFreeSlots loc dayStart dayEnd busyAll' minDur.
Proof.
  intros Hp.
  assert (E : freeOfDay dayStart dayEnd busyAll
              = freeOfDay dayStart dayEnd busyAll').
  { rewrite !freeOfDay_unfold, !busyOfDay_unfold. f_equal.
    set (w := {| start := dayStart; end_ := dayEnd |}).
    rewrite (mergeIntervals_unfold (clip w busyAll')).
    apply mergeIntervals_any_sort.
    - apply clip_wellFormed.
    - apply perm_trans with (clip w busyAll'); [apply clip_perm, Hp |].
      apply Permutation_sym, Slice_perm.
    - apply Slice_sorted. }
  split; [exact E |]. rewrite !findFreeSlots_unfold, E. reflexivity.
Qed.

Lemma findFreeSlots_permutation_witness :
  let a := mkInterval (time.Date 739263 10 0 32400) (time.Date 739263 11 0 32400) in
  let b := mkInterval (time.Date 739263 13 0 32400) (time.Date 739263 9 30 32400) in
  let s := time.Date 739263 9 0 32400 in
  let e := time.Date 739263 17 0 32400 in
  Permutation [a; b] [b; a] /\
  findFreeSlots 32400 s e [a; b] Hour = findFreeSlots 32400 s e [b; a] Hour.
Proof.
  split; [apply perm_swap |].
  apply (findFreeSlots_permutation 32400). apply perm_swap.
Defined.

Lemma clip_nothing dayWin busyAll :
  Forall (fun ev => snd (overlaps ev dayWin) = false) busyAll ->
  clip dayWin busyAll = [].
Proof.
  induction 1 as [| ev rest Hev Hrest IH]; simpl.
  - reflexivity.
  - destruct (overlaps ev dayWin) as [i ok]. simpl in Hev. subst ok. exact IH.
Qed.

(** X10: on a day whose window starts before it ends and which no busy
    interval reaches into, the whole window is the one free interval;
    [findFreeSlots] returns it as its only slot when the window is at
    least the minimum long and returns nothing when it is shorter. *)
Theorem free_day (loc : Location) (dayStart dayEnd : Time)
                 (busyAll : list interval) (minDur : Duration) :
  dayStart < dayEnd ->
  is_Duration minDur ->
  Forall (fun ev => snd (overlaps ev {| start := dayStart; end_ := dayEnd |})
                    = false) busyAll ->
  freeOfDay dayStart dayEnd busyAll
  = [{| start := dayStart; end_ := dayEnd |}] /\
  findFreeSlots loc dayStart dayEnd busyAll minDur
  = if minDur <=? dayEnd - dayStart
    then [formatSlot loc {| start := dayStart; end_ := dayEnd |}]
    else [].
Proof.
  intros Hlt Hd Hout.
  assert (E : freeOfDay dayStart dayEnd busyAll
              = [{| start := dayStart; end_ := dayEnd |}]).
  { rewrite freeOfDay_unfold, busyOfDay_unfold, (clip_nothing _ _ Hout).
    rewrite mergeIntervals_nil. simpl.
    replace (Before dayStart dayEnd) with true
      by (symmetry; apply Before_lt; exact Hlt).
    reflexivity. }
  split; [exact E |].
  rewrite findFreeSlots_unfold, E. simpl.
  rewrite longEnough_iff by (assumption || exact Hlt). simpl.
  destruct (minDur <=? dayEnd - dayStart); reflexivity.
Qed.

Lemma free_day_witness :
  let s := time.Date 739263 9 0 32400 in
  let e := time.Date 739263 17 0 32400 in
  let night := mkInterval (time.Date 739263 18 0 32400)
                          (time.Date 739263 23 0 32400) in
  findFreeSlots 32400 s e [night] (8 * Hour) = ["09:00~17:00"%string] /\
  findFreeSlots 32400 s e [night] (8 * Hour + Nanosecond) = [].
Proof.
  assert (Hlt : time.Date 739263 9 0 32400 < time.Date 739263 17 0 32400)
    by reflexivity.
  assert (Hout : Forall
            (fun ev => snd (overlaps ev
               {| start := time.Date 739263 9 0 32400;
                  end_ := time.Date 739263 17 0 32400 |}) = false)
            [mkInterval (time.Date 739263 18 0 32400)
                        (time.Date 739263 23 0 32400)])
    by (repeat constructor).
  split.
  - rewrite (proj2 (free_day 32400 _ _ _ (8 * Hour) Hlt
                      ltac:(vm_compute; split; discriminate) Hout)).
    reflexivity.
  - reflexivity.
Defined.

Lemma freeOfDay_booked (dayStart dayEnd : Time) (busyAll : list interval)
      (ev : interval) :
  In ev busyAll -> start ev <= dayStart -> dayEnd <= end_ ev ->
  freeOfDay dayStart dayEnd busyAll = [].
Proof.
  intros Hev Hs He.
  destruct (freeOfDay dayStart dayEnd busyAll) as [| f free] eqn:Ef;
    [reflexivity |].
  assert (Hf : In f (freeOfDay dayStart dayEnd busyAll))
    by (rewrite Ef; left; reflexivity).
  destruct (freeOfDay_member _ _ _ _ Hf) as (Hin & Hwf & Hno).
  specialize (Hno ev Hev). apply overlaps_not_found in Hno.
  unfold within, wellFormed in *. lia.
Qed.

(** X11: when one busy interval covers the whole day window, the day has
    no free interval and [findFreeSlots] returns no slot, whatever else
    is in the busy list. *)
Theorem fully_booked_day (loc : Location) (dayStart dayEnd : Time)
                         (busyAll : list interval) (minDur : Duration)
                         (ev : interval) :
  In ev busyAll ->
  start ev <= dayStart -> dayEnd <= end_ ev ->
  freeOfDay dayStart dayEnd busyAll = [] /\
  findFreeSlots loc dayStart dayEnd busyAll minDur = [].
Proof.
  intros Hev Hs He.
  pose proof (freeOfDay_booked dayStart dayEnd busyAll ev Hev Hs He) as E.
  split; [exact E |]. rewrite findFreeSlots_unfold, E. reflexivity.
Qed.

Lemma fully_booked_day_witness :
  let s := time.Date 739263 9 0 32400 in
  let e := time.Date 739263 17 0 32400 in
  let allDay := mkInterval (time.Date 739263 0 0 32400)
                           (time.Date 739264 0 0 32400) in
  let short := mkInterval (time.Date 739263 10 0 32400)
                          (time.Date 739263 11 0 32400) in
  findFreeSlots 32400 s e [short; allDay] 0 = [].
Proof.
  cbv zeta.
  apply (fully_booked_day 32400 _ _ _ 0
           (mkInterval (time.Date 739263 0 0 32400)
                       (time.Date 739264 0 0 32400))).
  - right. left. reflexivity.
  - vm_compute. discriminate.
  - vm_compute. discriminate.
Defined.

Lemma sweepFrom_length dayEnd busy : forall cursor,
  (List.length (sweepFrom cursor busy dayEnd) <= S (List.length busy))%nat.
Proof.
  induction busy as [| b busy IH]; intros cursor; simpl.
  - destruct (Before cursor dayEnd); simpl; lia.
  - specialize (IH (if After (end_ b) cursor then end_ b else cursor)).
    destruct (After (start b) cursor); simpl; lia.
Qed.

Lemma clip_length dayWin busyAll :
  (List.length (clip dayWin busyAll) <= List.length busyAll)%nat.
Proof.
  induction busyAll as [| ev rest IH]; simpl.
  - lia.
  - destruct (overlaps ev dayWin) as [i [|]]; simpl; lia.
Qed.

Lemma mergeIntervals_shorter (xs : list interval) :
  (List.length (mergeIntervals xs) <= List.length xs)%nat.
Proof.
  rewrite mergeIntervals_unfold.
  pose proof (Permutation_length (Slice_perm lessStart xs)) as Hlen.
  destruct (sort.Slice lessStart xs) as [| f r].
  - simpl. lia.
  - pose proof (mergeFrom_length r f) as H. simpl in Hlen. lia.
Qed.

(** X12: a day has at most one free interval more than there are busy
    intervals, and [findFreeSlots] returns at most that many slots. *)
Theorem slots_count (loc : Location) (dayStart dayEnd : Time)
                    (busyAll : list interval) (minDur : Duration) :
  (List.length (freeOfDay dayStart dayEnd busyAll)
   <= S (List.length busyAll))%nat /\
  (List.length (findFreeSlots loc dayStart dayEnd busyAll minDur)
   <= List.length (freeOfDay dayStart dayEnd busyAll))%nat.
Proof.
  split.
  - rewrite freeOfDay_unfold, busyOfDay_unfold.
    pose proof (sweepFrom_length dayEnd
      (mergeIntervals (clip {| start := dayStart; end_ := dayEnd |} busyAll))
      dayStart) as H1.
    pose proof (mergeIntervals_shorter
      (clip {| start := dayStart; end_ := dayEnd |} busyAll)) as H2.
    pose proof (clip_length {| start := dayStart; end_ := dayEnd |} busyAll)
      as H3.
    lia.
  - rewrite findFreeSlots_unfold, length_map. apply filter_length_le.
Qed.

(** X13: raising the minimum duration only takes slots away: the slots
    returned for a minimum are the slots returned for any smaller
    minimum that still pass the test, so each of them is among those. *)
Theorem findFreeSlots_antitone
        (loc : Location) (dayStart dayEnd : Time)
        (busyAll : list interval) (m1 m2 : Duration) :
  m1 <= m2 ->
  findFreeSlots loc dayStart dayEnd busyAll m2
  = map (formatSlot loc)
        (filter (longEnough m2)
           (filter (longEnough m1) (freeOfDay dayStart dayEnd busyAll))) /\
  incl (findFreeSlots loc dayStart dayEnd busyAll m2)
       (findFreeSlots loc dayStart dayEnd busyAll m1).
Proof.
  intros Hle.
  assert (Himp : forall f, longEnough m2 f = true -> longEnough m1 f = true).
  { unfold longEnough. intros f H. apply Z.leb_le in H. apply Z.leb_le. lia. }
  assert (E : forall l, filter (longEnough m2) (filter (longEnough m1) l)
                        = filter (longEnough m2) l).
  { induction l as [| f l IH]; simpl; [reflexivity |].
    destruct (longEnough m2 f) eqn:E2.
    - rewrite (Himp f E2). simpl. rewrite E2, IH. reflexivity.
    - destruct (longEnough m1 f); simpl; rewrite ?E2; exact IH. }
  split.
  - rewrite findFreeSlots_unfold, E. reflexivity.
  - rewrite !findFreeSlots_unfold. intros s Hs.
    apply in_map_iff in Hs. destruct Hs as (f & <- & Hf).
    apply filter_In in Hf. destruct Hf as [Hf H2].
    apply in_map, filter_In. split; [exact Hf | apply Himp, H2].
Qed.

Lemma findFreeSlots_antitone_witness :
  let at_ := fun h m => time.Date 739263 h m 32400 in
  let busy := [mkInterval (at_ 10 0) (at_ 10 30);
               mkInterval (at_ 10 45) (at_ 11 15)] in
  findFreeSlots 32400 (at_ 9 0) (at_ 17 0) busy (15 * Minute)
  = ["09:00~10:00"; "10:30~10:45"; "11:15~17:00"]%string /\
  incl (findFreeSlots 32400 (at_ 9 0) (at_ 17 0) busy (30 * Minute))
       (findFreeSlots 32400 (at_ 9 0) (at_ 17 0) busy (15 * Minute)).
Proof.
  split; [reflexivity |].
  apply (findFreeSlots_antitone 32400). vm_compute. discriminate.
Defined.

(** X15: with a minimum duration of zero or less nothing is filtered
    out: [findFreeSlots] returns every free interval of the day. *)
Theorem findFreeSlots_no_minimum
        (loc : Location) (dayStart dayEnd : Time)
        (busyAll : list interval) (minDur : Duration) :
  minDur <= 0 ->
  findFreeSlots loc dayStart dayEnd busyAll minDur
  = map (formatSlot loc) (freeOfDay dayStart dayEnd busyAll).
Proof.
  intros Hle. rewrite findFreeSlots_unfold. f_equal.
  pose proof (freeOfDay_wellFormed dayStart dayEnd busyAll) as Hwf.
  induction Hwf as [| f l Hf Hl IH]; simpl; [reflexivity |].
  replace (longEnough minDur f) with true; [f_equal; exact IH |].
  symmetry. unfold longEnough. rewrite (Sub_positive _ _ Hf).
  apply Z.leb_le. unfold wellFormed in Hf.
  unfold maxDuration. lia.
Qed.

Lemma findFreeSlots_no_minimum_witness :
  let at_ := fun h m => time.Date 739263 h m 32400 in
  findFreeSlots 32400 (at_ 9 0) (at_ 17 0)
    [mkInterval (at_ 9 1) (at_ 17 0)] (-5)
  = ["09:00~09:01"%string].
Proof.
  cbv zeta. rewrite findFreeSlots_no_minimum by lia. reflexivity.
Defined.

(** ** The shape of a slot *)

Lemma HourOf_range (loc : Location) (t : Time) : 0 <= HourOf loc t < 24.
Proof.
  unfold HourOf, secondsPerDay, secondsPerHour, secondsPerMinute.
  change (24 * (60 * 60)) with 86400. change (60 * 60) with 3600.
  pose proof (Z.mod_pos_bound (abs loc t) 86400 ltac:(lia)) as H.
  split.
  - apply Z.div_pos; lia.
  - apply Z.div_lt_upper_bound; lia.
Qed.

Lemma MinuteOf_range (loc : Location) (t : Time) : 0 <= MinuteOf loc t < 60.
Proof.
  unfold MinuteOf, secondsPerHour, secondsPerMinute.
  change (60 * 60) with 3600.
  pose proof (Z.mod_pos_bound (abs loc t) 3600 ltac:(lia)) as H.
  split.
  - apply Z.div_pos; lia.
  - apply Z.div_lt_upper_bound; lia.
Qed.

Lemma pad02d_twoDigits (n : Z) :
  0 <= n < 100 -> fmt.pad02d n = twoDigits n.
Proof.
  intros Hn.
  assert (Hall : forallb (fun k => String.eqb (fmt.pad02d (Z.of_nat k))
                                              (twoDigits (Z.of_nat k)))
                         (seq 0 100) = true) by (vm_compute; reflexivity).
  rewrite forallb_forall in Hall.
  specialize (Hall (Z.to_nat n)). rewrite Z2Nat.id in Hall by lia.
  apply String.eqb_eq, Hall, in_seq. lia.
Qed.

(** X14: every slot [findFreeSlots] returns is the text [HH:MM~HH:MM] of
    a free interval of the day that is long enough: eleven bytes, the
    hours from 00 to 23 and the minutes from 00 to 59 of its start and of
    its end, each with two digits. *)
Theorem slot_shape (loc : Location) (dayStart dayEnd : Time)
                   (busyAll : list interval) (minDur : Duration)
                   (slot : string) :
  In slot (findFreeSlots loc dayStart dayEnd busyAll minDur) ->
  exists f,
    In f (freeOfDay dayStart dayEnd busyAll) /\ longEnough minDur f = true /\
    0 <= HourOf loc (start f) < 24 /\ 0 <= MinuteOf loc (start f) < 60 /\
    0 <= HourOf loc (end_ f) < 24 /\ 0 <= MinuteOf loc (end_ f) < 60 /\
    slot = (twoDigits (HourOf loc (start f)) ++ ":" ++
            twoDigits (MinuteOf loc (start f)) ++ "~" ++
            twoDigits (HourOf loc (end_ f)) ++ ":" ++
            twoDigits (MinuteOf loc (end_ f)))%string /\
    String.length slot = 11%nat.
Proof.
  rewrite findFreeSlots_unfold. intros Hs.
  apply in_map_iff in Hs. destruct Hs as (f & <- & Hf).
  apply filter_In in Hf. destruct Hf as [Hf Hlong].
  pose proof (HourOf_range loc (start f)) as H1.
  pose proof (MinuteOf_range loc (start f)) as H2.
  pose proof (HourOf_range loc (end_ f)) as H3.
  pose proof (MinuteOf_range loc (end_ f)) as H4.
  exists f. repeat (split; [assumption |]).
  unfold formatSlot. rewrite !pad02d_twoDigits by lia.
  split; reflexivity.
Qed.

Lemma slot_shape_witness :
  let at_ := fun h m => time.Date 739263 h m 32400 in
  exists f,
    In f (freeOfDay (at_ 9 5) (at_ 17 0) []) /\
    longEnough Hour f = true /\
    0 <= HourOf 32400 (start f) < 24 /\ 0 <= MinuteOf 32400 (start f) < 60 /\
    0 <= HourOf 32400 (end_ f) < 24 /\ 0 <= MinuteOf 32400 (end_ f) < 60 /\
    "09:05~17:00"%string
    = (twoDigits (HourOf 32400 (start f)) ++ ":" ++
       twoDigits (MinuteOf 32400 (start f)) ++ "~" ++
       twoDigits (HourOf 32400 (end_ f)) ++ ":" ++
       twoDigits (MinuteOf 32400 (end_ f)))%string /\
    String.length "09:05~17:00" = 11%nat.
Proof.
  cbv zeta.
  apply (slot_shape 32400 (time.Date 739263 9 5 32400)
           (time.Date 739263 17 0 32400) [] Hour "09:05~17:00").
  left. reflexivity.
Defined.

(** ** [eventsToIntervals], event by event *)

Section EventsMore.
Variable parseRFC3339 : string -> option Time.
Variable parseDay : string -> Location -> option Time.
Variable loc : Location.

Local Abbreviation toIntervals :=
  (fun events => eventsToIntervals parseRFC3339 parseDay events loc).

Lemma eventsToIntervals_app_eq (events1 events2 : list calendar.Event) :
  toIntervals (events1 ++ events2)
  = toIntervals events1 ++ toIntervals events2.
Proof.
  induction events1 as [| e events1 IH]; simpl.
  - reflexivity.
  - rewrite !eventsToIntervals_cons, IH, app_assoc. reflexivity.
Qed.

Lemma eventsToIntervals_In (events : list calendar.Event) (x : interval) :
  In x (toIntervals events) <->
  exists e, In e events /\
    strings.EqualFold (calendar.Status e) "canceled" = false /\
    strings.EqualFold (calendar.Transparency e) "transparent" = false /\
    parseEventTime parseRFC3339 parseDay e loc = (start x, end_ x, true) /\
    start x < end_ x.
Proof.
  split.
  - intros Hx.
    destruct (eventsToIntervals_skips _ _ _ _ _ Hx)
      as (Hwf & e & He & Hc & Ht & Hp).
    exists e. repeat split; assumption.
  - intros (e & He & Hc & Ht & Hp & Hlt).
    apply in_split in He. destruct He as (l1 & l2 & ->).
    rewrite eventsToIntervals_app_eq, eventsToIntervals_cons.
    apply in_or_app. right. apply in_or_app. left.
    rewrite (eventStep_kept _ _ _ _ _ _ Hc Ht Hp Hlt).
    left. destruct x; reflexivity.
Qed.

End EventsMore.

(** X16: the busy intervals [eventsToIntervals] returns are exactly the
    spans of the events whose status does not fold to "canceled", whose
    transparency does not fold to "transparent", whose times
    [parseEventTime] accepts and which end strictly after they start;
    every one of them is well formed. *)
Theorem eventsToIntervals_exactly
        (parseRFC3339 : string -> option Time)
        (parseDay : string -> Location -> option Time)
        (loc : Location) (events : list calendar.Event) (x : interval) :
  In x (eventsToIntervals parseRFC3339 parseDay events loc) <->
  (wellFormed x /\
   exists e, In e events /\
     strings.EqualFold (calendar.Status e) "canceled" = false /\
     strings.EqualFold (calendar.Transparency e) "transparent" = false /\
     parseEventTime parseRFC3339 parseDay e loc = (start x, end_ x, true)).
Proof.
  rewrite eventsToIntervals_In. unfold wellFormed. split.
  - intros (e & He & Hc & Ht & Hp & Hlt). split; [exact Hlt |].
    exists e. repeat split; assumption.
  - intros (Hlt & e & He & Hc & Ht & Hp).
    exists e. repeat split; assumption.
Qed.

Lemma eventsToIntervals_length_le
      (parseRFC3339 : string -> option Time)
      (parseDay : string -> Location -> option Time)
      (loc : Location) (events : list calendar.Event) :
  (List.length (eventsToIntervals parseRFC3339 parseDay events loc)
   <= List.length events)%nat.
Proof.
  induction events as [| e events IH].
  - simpl. lia.
  - rewrite eventsToIntervals_cons, length_app. simpl List.length.
    assert (H : (List.length (eventStep parseRFC3339 parseDay loc [] e) <= 1)%nat).
    { unfold eventStep.
      destruct (strings.EqualFold (calendar.Status e) "canceled");
        [simpl; lia |].
      destruct (strings.EqualFold (calendar.Transparency e) "transparent");
        [simpl; lia |].
      destruct (parseEventTime parseRFC3339 parseDay e loc) as [[s en] ok].
      destruct (negb ok); [simpl; lia |].
      destruct (negb (After en s)); simpl; lia. }
    lia.
Qed.

(** X17: [eventsToIntervals] works event by event and keeps the order:
    the intervals of two lists of events put end to end are the
    intervals of the first followed by those of the second, and there
    are never more intervals than events. *)
Theorem eventsToIntervals_app
        (parseRFC3339 : string -> option Time)
        (parseDay : string -> Location -> option Time)
        (loc : Location) (events1 events2 : list calendar.Event) :
  eventsToIntervals parseRFC3339 parseDay (events1 ++ events2) loc
  = eventsToIntervals parseRFC3339 parseDay events1 loc
    ++ eventsToIntervals parseRFC3339 parseDay events2 loc /\
  (List.length (eventsToIntervals parseRFC3339 parseDay (events1 ++ events2) loc)
   <= List.length events1 + List.length events2)%nat.
Proof.
  split.
  - apply eventsToIntervals_app_eq.
  - rewrite <- length_app. apply eventsToIntervals_length_le.
Qed.

(** ** An all-day event *)




(** ** Weekdays *)

Lemma WeekdayOf_dayOf (loc : Location) (t : Time) :
  WeekdayOf loc t = (dayOf loc t + 1) mod 7.
Proof.
  unfold WeekdayOf, dayOf, secondsPerWeek, Monday.
  assert (Hd : secondsPerDay = 86400) by reflexivity. rewrite Hd.
  set (x := abs loc t + 1 * 86400).
  assert (Hx : x / 86400 = abs loc t / 86400 + 1)
    by (unfold x; apply Z.div_add; lia).
  rewrite <- Hx, (Z.mul_comm 7 86400), Z.rem_mul_r by lia.
  rewrite (Z.mul_comm 86400 ((x / 86400) mod 7)), Z.div_add by lia.
  rewrite Z.div_small by (apply Z.mod_pos_bound; lia). reflexivity.
Qed.

Lemma WeekdayOf_range (loc : Location) (t : Time) : 0 <= WeekdayOf loc t < 7.
Proof. rewrite WeekdayOf_dayOf. apply Z.mod_pos_bound. lia. Qed.





(** ** The threshold *)

(** X23: the threshold [main] computes from the [-min] flag is the
    number of minutes in nanoseconds as long as the flag is between
    -153722867 and 153722867; beyond that the product wraps around, and a
    flag of 153722868 gives a negative threshold.  It is a [Duration] in
    any case. *)
Theorem minDurOf_exact (minMinutes : Z) :
  is_Duration (minDurOf minMinutes) /\
  (-153722867 <= minMinutes <= 153722867 ->
   minDurOf minMinutes = minMinutes * Minute) /\
  minDurOf 153722868 < 0.
Proof.
  unfold minDurOf, wrapInt64, is_Duration, minDuration, maxDuration.
  split; [| split].
  - pose proof (Z.mod_pos_bound (minMinutes * Minute + 2 ^ 63) (2 ^ 64)
                  ltac:(lia)) as H. lia.
  - intros H. rewrite Z.mod_small; [lia |].
    unfold Minute, Second, Nanosecond. lia.
  - reflexivity.
Qed.

(** ** [fetchCalendarEvents], page by page *)

Lemma fetchLoop_pages (pages : list calendar.Events) :
  forall (rest : list (option calendar.Events)) (pageToken : string)
         (events : list calendar.Event),
  Forall hasNext pages ->
  fetchLoop (map Some pages ++ rest) pageToken events
  = (match rest with
     | [] => Waiting
     | None :: _ => FetchError
     | Some resp :: rest' =>
         if nonEmpty (calendar.NextPageToken resp)
         then fst (fetchLoop rest'
                     (calendar.NextPageToken resp)
                     (events ++ flat_map calendar.Items pages
                             ++ calendar.Items resp))
         else Fetched (events ++ flat_map calendar.Items pages
                              ++ calendar.Items resp)
     end,
     (if nonEmpty pageToken then Some pageToken else None)
     :: map (fun p => Some (calendar.NextPageToken p)) pages
     ++ match rest with
        | Some resp :: rest' =>
            if nonEmpty (calendar.NextPageToken resp)
            then snd (fetchLoop rest'
                        (calendar.NextPageToken resp)
                        (events ++ flat_map calendar.Items pages
                                ++ calendar.Items resp))
            else []
        | _ => []
        end).
Proof.
  induction pages as [| p pages IH]; intros rest pageToken events Hp.
  - cbn [map app flat_map].
    destruct rest as [| [resp |] rest']; try reflexivity.
    cbn [fetchLoop].
    destruct (nonEmpty (calendar.NextPageToken resp)); [| reflexivity].
    destruct (fetchLoop rest' (calendar.NextPageToken resp)
                (events ++ calendar.Items resp)).
    reflexivity.
  - inversion Hp as [| ? ? Hnext Hp']; subst. unfold hasNext in Hnext.
    cbn [map app fetchLoop]. rewrite Hnext.
    rewrite (IH rest (calendar.NextPageToken p)
               (events ++ calendar.Items p) Hp').
    cbn [flat_map].
    rewrite Hnext.
    destruct rest as [| [resp |] rest']; try reflexivity.
    rewrite <- !app_assoc.
    destruct (nonEmpty (calendar.NextPageToken resp)); reflexivity.
Qed.

(** X20: when the service answers with pages that each announce a next
    page and then with a page that announces none,
    [fetchCalendarEvents] returns the events of all these pages in
    order and reads no further answer; when instead of that last page it
    answers with an error, [fetchCalendarEvents] returns the error and no
    event; when it gives no further answer the loop is still waiting.
    The first call carries no page token and each later call carries the
    token of the page before it. *)
Theorem fetchCalendarEvents_pages
        (pages : list calendar.Events) (lastPage : calendar.Events)
        (ignored : list (option calendar.Events)) :
  Forall hasNext pages ->
  nonEmpty (calendar.NextPageToken lastPage) = false ->
  let tokens := None :: map (fun p => Some (calendar.NextPageToken p)) pages in
  fetchCalendarEvents (map Some pages ++ Some lastPage :: ignored)
  = (Fetched (flat_map calendar.Items (pages ++ [lastPage])), tokens) /\
  fetchCalendarEvents (map Some pages ++ None :: ignored)
  = (FetchError, tokens) /\
  fetchCalendarEvents (map Some pages) = (Waiting, tokens).
Proof.
  intros Hp Hlast tokens. subst tokens. unfold fetchCalendarEvents.
  repeat split.
  - rewrite fetchLoop_pages by exact Hp. rewrite Hlast.
    rewrite flat_map_app. simpl. rewrite !app_nil_r. reflexivity.
  - rewrite fetchLoop_pages by exact Hp. rewrite app_nil_r. reflexivity.
  - rewrite <- (app_nil_r (map Some pages)).
    rewrite fetchLoop_pages by exact Hp. rewrite app_nil_r. reflexivity.
Qed.

Lemma fetchCalendarEvents_pages_witness :
  let ev := fun s : string => calendar.mkEvent s "" None None in
  let a := ev "a"%string in
  let b := ev "b"%string in
  let c := ev "c"%string in
  let d := ev "d"%string in
  fetchCalendarEvents
    [Some (calendar.mkEvents [a; b] "t1"); Some (calendar.mkEvents [c] "t2");
     Some (calendar.mkEvents [d] ""); None]
  = (Fetched [a; b; c; d], [None; Some "t1"; Some "t2"]%string).
Proof.
  cbv zeta.
  refine (proj1 (fetchCalendarEvents_pages
            [calendar.mkEvents _ "t1"; calendar.mkEvents _ "t2"]
            (calendar.mkEvents _ "") [None] _ _)).
  - repeat constructor.
  - reflexivity.
Defined.

(** ** Free time and busy time *)

Lemma sweepFrom_total dayEnd busy : forall cursor,
  cursor <= dayEnd ->
  Forall (fun b => cursor <= start b /\ wellFormed b /\ end_ b <= dayEnd) busy ->
  pairwise apart busy ->
  totalLength (sweepFrom cursor busy dayEnd) + totalLength busy
  = dayEnd - cursor.
Proof.
  unfold pairwise.
  induction busy as [| b busy IH]; intros cursor Hc Hb Hap; simpl.
  - destruct (Before cursor dayEnd) eqn:E; simpl.
    + lia.
    + apply Before_ge in E. lia.
  - inversion Hb as [| ? ? (Hs & Hwf & He) Hb']; subst.
    inversion Hap as [| ? ? Hap' Hfar]; subst.
    unfold wellFormed in Hwf.
    replace (After (end_ b) cursor) with true
      by (symmetry; apply After_lt; lia).
    assert (Hnext : Forall (fun b' => end_ b <= start b' /\ wellFormed b' /\
                                      end_ b' <= dayEnd) busy).
    { rewrite Forall_forall in *. intros b' Hin.
      specialize (Hb' b' Hin). specialize (Hfar b' Hin).
      unfold apart in Hfar. intuition lia. }
    specialize (IH (end_ b) He Hnext Hap').
    destruct (After (start b) cursor) eqn:E; simpl.
    + lia.
    + apply After_ge in E. lia.
Qed.

(** X25: in a day window that does not end before it starts, the lengths
    of the free intervals and the lengths of the merged busy intervals
    of the day add up to the length of the window. *)
Theorem free_and_busy_time (dayStart dayEnd : Time) (busyAll : list interval) :
  dayStart <= dayEnd ->
  totalLength (freeOfDay dayStart dayEnd busyAll)
  + totalLength (busyOfDay dayStart dayEnd busyAll)
  = dayEnd - dayStart.
Proof.
  intros Hle. rewrite freeOfDay_unfold. apply sweepFrom_total.
  - exact Hle.
  - apply busyOfDay_inside.
  - rewrite busyOfDay_unfold. apply mergeIntervals_sorted_apart.
Qed.

Lemma free_and_busy_time_witness :
  let busy := [mkInterval 10 12; mkInterval 11 13; mkInterval 16 20] in
  freeOfDay 9 17 busy = [mkInterval 9 10; mkInterval 13 16] /\
  busyOfDay 9 17 busy = [mkInterval 10 13; mkInterval 16 17] /\
  totalLength (freeOfDay 9 17 busy) + totalLength (busyOfDay 9 17 busy)
  = 17 - 9.
Proof.
  split; [reflexivity |]. split; [reflexivity |].
  apply (free_and_busy_time 9 17). lia.
Defined.

Lemma clip_app dayWin (l1 l2 : list interval) :
  clip dayWin (l1 ++ l2) = clip dayWin l1 ++ clip dayWin l2.
Proof.
  induction l1 as [| ev l1 IH]; simpl; [reflexivity |].
  destruct (overlaps ev dayWin) as [i [|]]; rewrite IH; reflexivity.
Qed.

(** X26: a busy interval that does not reach into the day window (it
    ends at or before the start of the day, or starts at or after its
    end) or that does not end after it starts changes nothing: the free
    intervals and the slots are those of the busy list without it. *)
Theorem irrelevant_busy_interval
        (loc : Location) (dayStart dayEnd : Time)
        (before after : list interval) (ev : interval) (minDur : Duration) :
  end_ ev <= dayStart \/ dayEnd <= start ev \/ end_ ev <= start ev ->
  freeOfDay dayStart dayEnd (before ++ ev :: after)
  = freeOfDay dayStart dayEnd (before ++ after) /\
  findFreeSlots loc dayStart dayEnd (before ++ ev :: after) minDur
  = findFreeSlots loc dayStart dayEnd (before ++ after) minDur.
Proof.
  intros Hev.
  assert (E : freeOfDay dayStart dayEnd (before ++ ev :: after)
              = freeOfDay dayStart dayEnd (before ++ after)).
  { rewrite !freeOfDay_unfold, !busyOfDay_unfold, !clip_app.
    cbn [clip].
    assert (Hno : snd (overlaps ev {| start := dayStart; end_ := dayEnd |})
                  = false).
    { apply overlaps_not_found. simpl. lia. }
    destruct (overlaps ev {| start := dayStart; end_ := dayEnd |}) as [i ok].
    simpl in Hno. subst ok. reflexivity. }
  split; [exact E |]. rewrite !findFreeSlots_unfold, E. reflexivity.
Qed.

Lemma irrelevant_busy_interval_witness :
  let today := mkInterval 10 11 in
  let later := mkInterval 33 35 in
  17 <= start later /\
  findFreeSlots 0 9 17 ([today] ++ later :: []) 1
  = findFreeSlots 0 9 17 ([today] ++ []) 1.
Proof.
  assert (H : end_ (mkInterval 33 35) <= 9 \/ 17 <= start (mkInterval 33 35) \/
              end_ (mkInterval 33 35) <= start (mkInterval 33 35))
    by (right; left; simpl; lia).
  split; [simpl; lia |].
  exact (proj2 (irrelevant_busy_interval 0 9 17 [mkInterval 10 11] []
                  (mkInterval 33 35) 1 H)).
Defined.

Lemma freeOfDay_covers (dayStart dayEnd : Time) (busyAll : list interval)
      (t : Time) :
  dayStart <= t < dayEnd ->
  (exists f, In f (freeOfDay dayStart dayEnd busyAll) /\ contains f t) \/
  (exists ev, In ev busyAll /\ contains ev t).
Proof.
  intros Ht. rewrite freeOfDay_unfold.
  destruct (sweepFrom_covers dayEnd (busyOfDay dayStart dayEnd busyAll)
              dayStart t Ht) as [Hfree | (b & Hb & Hc)].
  - left. exact Hfree.
  - right. apply (busyOfDay_origin dayStart dayEnd busyAll b t Hb Hc).
Qed.

(** X27: more busy intervals never make more free time: an instant that
    lies in a free interval of the day for a busy list lies in a free
    interval of the day for every busy list all of whose intervals are
    in the first one. *)
Theorem more_busy_less_free (dayStart dayEnd : Time)
                            (fewer more : list interval) (t : Time) :
  incl fewer more ->
  (exists f, In f (freeOfDay dayStart dayEnd more) /\ contains f t) ->
  exists f, In f (freeOfDay dayStart dayEnd fewer) /\ contains f t.
Proof.
  intros Hincl (f & Hf & Ht).
  destruct (freeOfDay_member _ _ _ _ Hf) as (Hin & Hwf & Hno).
  assert (Hwin : dayStart <= t < dayEnd)
    by (unfold within, contains in *; lia).
  destruct (freeOfDay_covers dayStart dayEnd fewer t Hwin)
    as [Hfree | (ev & Hev & Hc)]; [exact Hfree |].
  specialize (Hno ev (Hincl ev Hev)). apply overlaps_not_found in Hno.
  unfold contains in *. lia.
Qed.

Lemma more_busy_less_free_witness :
  let fewer := [mkInterval 10 12] in
  let more := [mkInterval 14 16; mkInterval 10 12] in
  incl fewer more /\
  (exists f, In f (freeOfDay 9 17 more) /\ contains f 13) /\
  (exists f, In f (freeOfDay 9 17 fewer) /\ contains f 13).
Proof.
  assert (Hincl : incl [mkInterval 10 12] [mkInterval 14 16; mkInterval 10 12])
    by (intros x [<- | []]; right; left; reflexivity).
  assert (Hfree : exists f,
            In f (freeOfDay 9 17 [mkInterval 14 16; mkInterval 10 12]) /\
            contains f 13).
  { exists (mkInterval 12 14). split; [right; left; reflexivity |].
    unfold contains. simpl. lia. }
  split; [exact Hincl |]. split; [exact Hfree |].
  exact (more_busy_less_free 9 17 _ _ 13 Hincl Hfree).
Defined.


(** ** The loop of [main] over the days *)

(** *** Locations *)

Lemma dayOf_wall (loc : Location) (t : Time) :
  dayOf loc t = (t + loc * Second) / (secondsPerDay * Second).
Proof.
  unfold dayOf, abs. rewrite (Z.mul_comm secondsPerDay Second).
  rewrite <- Z.div_div by (vm_compute; try discriminate; reflexivity).
  rewrite Z.div_add by (vm_compute; discriminate). reflexivity.
Qed.

(** The wall clock of the next calendar day, read as UTC, is a day
    later. *)
Lemma next_wall (z : zone) (t : Time) :
  (dayIn z t + 1) * secondsPerDay * Second + clockIn z t
  = t + offsetAt z t * Second + secondsPerDay * Second.
Proof.
  unfold dayIn, clockIn. rewrite dayOf_wall.
  pose proof (Z.div_mod (t + offsetAt z t * Second) (secondsPerDay * Second)
                ltac:(vm_compute; discriminate)) as H.
  lia.
Qed.

(** In a location with a fixed offset the next day is 24 hours later and
    the dates are those of [time.Date]. *)
Lemma AddDate1_fixed (loc : Location) (t : Time) :
  AddDate1 (fixedZone loc) t = AddDays t 1.
Proof.
  unfold AddDate1. cbn [fixedZone zoneDate].
  pose proof (next_wall (fixedZone loc) t) as H. cbn [fixedZone offsetAt] in H.
  unfold AddDays, Hour, Minute, secondsPerDay, secondsPerHour,
    secondsPerMinute in *. lia.
Qed.

Lemma dateAt_fixed (loc : Location) (day : Time) (hour min : Z) :
  dateAt (fixedZone loc) day hour min = time.Date (dayOf loc day) hour min loc.
Proof.
  unfold dateAt, dayIn, time.Date. cbn [fixedZone zoneDate offsetAt]. lia.
Qed.

Lemma findFreeSlotsIn_fixed (loc : Location) (dayStart dayEnd : Time)
      (busyAll : list interval) (minDur : Duration) :
  findFreeSlotsIn (fixedZone loc) dayStart dayEnd busyAll minDur
  = findFreeSlots loc dayStart dayEnd busyAll minDur.
Proof. reflexivity. Qed.

(** In a location with one change of offset the next day is 24 hours
    later, or 24 hours more or less the difference of the two offsets. *)
Lemma AddDate1_changing (change : Time) (before after : Location) (t : Time) :
  let z := changingZone change before after in
  AddDate1 z t = t + secondsPerDay * Second \/
  AddDate1 z t = t + (secondsPerDay + (before - after)) * Second \/
  AddDate1 z t = t + (secondsPerDay + (after - before)) * Second.
Proof.
  intros z. unfold AddDate1.
  pose proof (next_wall z t) as H. subst z.
  cbn [changingZone zoneDate offsetAt] in *. rewrite H. clear H.
  set (D := secondsPerDay * Second).
  destruct (Z.ltb_spec t change);
    repeat match goal with
           | |- context [ ?x <? ?y ] => destruct (Z.ltb_spec x y)
           | |- context [ ?x <=? ?y ] => destruct (Z.leb_spec x y)
           end; lia.
Qed.

Lemma AddDate1_changing_later (change : Time) (before after : Location)
      (t : Time) :
  - secondsPerDay < before - after < secondsPerDay ->
  t < AddDate1 (changingZone change before after) t.
Proof.
  intros Hd.
  destruct (AddDate1_changing change before after t) as [E | [E | E]];
    rewrite E; unfold secondsPerDay, secondsPerHour, secondsPerMinute,
      Second, Nanosecond in *; lia.
Qed.

(** *** The days the loop visits *)

Section ReportFacts.
Variable formatDay : Time -> string.
Variable z : zone.
Variable h : hours.
Variable busyAll : list interval.
Variable minDur : Duration.
Variable endDate : Time.

(** The next calendar day is later. *)
Hypothesis later : forall t, t < AddDate1 z t.

Local Abbreviation loop :=
  (fun fuel day printed =>
     dayLoop formatDay fuel z h busyAll minDur day endDate printed).
Local Abbreviation lines :=
  (fun days => flat_map (dayLines formatDay z h busyAll minDur) days).

Lemma daysFrom_later (n : nat) : forall first,
  Forall (fun d => first <= d) (daysFrom (AddDate1 z) first n).
Proof.
  induction n as [| n IH]; intros first; simpl.
  - constructor.
  - constructor; [lia |].
    specialize (IH (AddDate1 z first)). pose proof (later first) as Hl.
    revert IH. apply Forall_impl. intros; lia.
Qed.


(** Whatever the loop returns, it is what the body printed for some
    days in a row from the first one, none of them after [endDate]. *)
Lemma dayLoop_Some (fuel : nat) : forall day printed out,
  loop fuel day printed = Some out ->
  exists n, out = printed ++ lines (daysFrom (AddDate1 z) day n) /\
            Forall (fun d => d <= endDate) (daysFrom (AddDate1 z) day n).
Proof.
  induction fuel as [| fuel IH]; intros day printed out H; simpl in H.
  - discriminate.
  - destruct (After day endDate) eqn:E; simpl in H.
    + exists O. inversion H. simpl. rewrite app_nil_r. split; constructor.
    + apply After_ge in E. destruct (IH _ _ _ H) as (n & -> & Hall).
      exists (S n). simpl. rewrite <- app_assoc.
      split; [reflexivity | constructor; assumption].
Qed.

Lemma dayLines_line (day : Time) (line : string) :
  In line (dayLines formatDay z h busyAll minDur day) ->
  Monday <= WeekdayOf (offsetAt z day) day <= Friday /\
  findFreeSlotsIn z (dateAt z day (wsH h) (wsM h))
                    (dateAt z day (weH h) (weM h)) busyAll minDur <> [] /\
  line = ("- " ++ formatDay day ++ "（"
          ++ formatJpWeekday (offsetAt z day) day ++ "） "
          ++ strings.Join
               (findFreeSlotsIn z (dateAt z day (wsH h) (wsM h))
                  (dateAt z day (weH h) (weM h)) busyAll minDur) ", "
          ++ newline)%string.
Proof.
  unfold dayLines. pose proof (WeekdayOf_range (offsetAt z day) day) as Hr.
  destruct (Z.eqb_spec (WeekdayOf (offsetAt z day) day) Saturday) as [E1 | E1];
    [intros [] |].
  destruct (Z.eqb_spec (WeekdayOf (offsetAt z day) day) Sunday) as [E2 | E2];
    [intros [] |].
  simpl orb. cbv iota.
  destruct (findFreeSlotsIn z _ _ busyAll minDur) as [| s slots];
    [intros [] |].
  intros [<- | []]. unfold Monday, Friday, Saturday, Sunday in *.
  repeat split; [lia | lia | discriminate].
Qed.

End ReportFacts.


(** The five days from 7 to 11 March 2025 in New York, the 9th being
    23 hours long: the loop visits the five local midnights and prints
    the Friday, the Monday and the Tuesday. *)
Lemma newYork_week :
  let day := fun d => zoneDate newYork2025 d 0 in
  daysFrom (AddDate1 newYork2025) (day 739316) 5
  = [day 739316; day 739317; day 739318; day 739319; day 739320] /\
  day 739319 - day 739318 = 23 * Hour /\
  option_map (@List.length string)
    (dayLoop (fun _ => EmptyString) 6 newYork2025 (mkHours 9 0 17 0) []
             Hour (day 739316) (day 739320) [])
  = Some 3%nat.
Proof. vm_compute. repeat split. Qed.


(** X22: when the same wall clock on the next calendar day is a later
    instant, every line the loop of [main] prints is the line of a day
    between [startDate] and [endDate] that is a Monday, Tuesday,
    Wednesday, Thursday or Friday in the location and for which
    [findFreeSlots], given the working hours of that day, returns at
    least one slot; the line holds the date, the weekday label and
    these slots joined by a comma. *)
Theorem printed_lines
        (formatDay : Time -> string) (z : zone) (h : hours)
        (busyAll : list interval) (minDur : Duration)
        (startDate endDate : Time) (fuel : nat)
        (out : list string) (line : string) :
  (forall t, t < AddDate1 z t) ->
  dayLoop formatDay fuel z h busyAll minDur startDate endDate [] = Some out ->
  In line out ->
  exists day slots,
    startDate <= day <= endDate /\
    Monday <= WeekdayOf (offsetAt z day) day <= Friday /\
    slots = findFreeSlotsIn z (dateAt z day (wsH h) (wsM h))
                              (dateAt z day (weH h) (weM h))
                              busyAll minDur /\
    slots <> [] /\
    line = ("- " ++ formatDay day ++ "（"
            ++ formatJpWeekday (offsetAt z day) day ++ "） "
            ++ strings.Join slots ", " ++ newline)%string.
Proof.
  intros Hlater Hrun Hline.
  apply dayLoop_Some in Hrun. destruct Hrun as (n & -> & Hall).
  simpl in Hline. apply in_flat_map in Hline.
  destruct Hline as (day & Hday & Hline).
  pose proof (daysFrom_later z Hlater n startDate) as Hlow.
  rewrite Forall_forall in Hall, Hlow.
  specialize (Hall day Hday). specialize (Hlow day Hday).
  destruct (dayLines_line formatDay z h busyAll minDur day line Hline)
    as (Hw & Hne & ->).
  exists day, (findFreeSlotsIn z (dateAt z day (wsH h) (wsM h))
                 (dateAt z day (weH h) (weM h)) busyAll minDur).
  repeat split; try assumption; try lia.
Qed.

Lemma printed_lines_witness :
  let friday := zoneDate newYork2025 739316 0 in
  let tuesday := zoneDate newYork2025 739320 0 in
  let formatDay := fun _ : Time => "D"%string in
  let busy := [mkInterval (dateAt newYork2025 tuesday 10 0)
                          (dateAt newYork2025 tuesday 16 30)] in
  let line := ("- D（火） 09:00~10:00"
               ++ String (ascii_of_nat 10) EmptyString)%string in
  option_map (fun out => nth 2 out EmptyString)
    (dayLoop formatDay 6 newYork2025 (mkHours 9 0 17 0) busy Hour
             friday tuesday [])
  = Some line /\
  exists day slots,
    friday <= day <= tuesday /\
    Monday <= WeekdayOf (offsetAt newYork2025 day) day <= Friday /\
    slots = findFreeSlotsIn newYork2025 (dateAt newYork2025 day 9 0)
              (dateAt newYork2025 day 17 0) busy Hour /\
    slots <> [] /\
    line = ("- " ++ formatDay day ++ "（"
            ++ formatJpWeekday (offsetAt newYork2025 day) day ++ "） "
            ++ strings.Join slots ", " ++ newline)%string.
Proof.
  cbv zeta.
  assert (Hlater : forall t, t < AddDate1 newYork2025 t).
  { intros t. apply AddDate1_changing_later. vm_compute.
    split; reflexivity. }
  pose (busy := [mkInterval
                   (dateAt newYork2025 (zoneDate newYork2025 739320 0) 10 0)
                   (dateAt newYork2025 (zoneDate newYork2025 739320 0) 16 30)]).
  pose (out := ["- D（金） 09:00~17:00"
                  ++ String (ascii_of_nat 10) EmptyString;
                "- D（月） 09:00~17:00"
                  ++ String (ascii_of_nat 10) EmptyString;
                "- D（火） 09:00~10:00"
                  ++ String (ascii_of_nat 10) EmptyString]%string).
  assert (Hrun : dayLoop (fun _ : Time => "D"%string) 6 newYork2025
                   (mkHours 9 0 17 0) busy Hour
                   (zoneDate newYork2025 739316 0)
                   (zoneDate newYork2025 739320 0) [] = Some out)
    by (vm_compute; reflexivity).
  split; [fold busy; rewrite Hrun; reflexivity |].
  exact (printed_lines (fun _ : Time => "D"%string) newYork2025
           (mkHours 9 0 17 0) busy Hour _ _ 6 out _ Hlater Hrun
           (or_intror (or_intror (or_introl eq_refl)))).
Defined.

(** ** The times of an all-day event *)



